(** * libssh: library bring-up and teardown (src/init.c) and the pthread
      lock backend (src/threads/pthread.c)

    A shallow embedding of the two C files and the properties of the
    lifecycle counter and of the lock API proved about it. *)

From Stdlib Require Import ZArith List Lia Bool.
From stdpp Require Import strings.
From stdpp Require Import gmap.
Import ListNotations.

Local Open Scope Z_scope.

(** ** C [int] *)

(** [int] is the 32-bit two's complement integer of the usual targets.
    [int_wrap] brings the result of an arithmetic operation back into its
    range; ISO C leaves the overflowing case undefined, the targets wrap. *)
Definition INT_MAX : Z := 2147483647.
Definition INT_MIN : Z := -2147483648.

Definition int_wrap (z : Z) : Z := (z - INT_MIN) mod 4294967296 + INT_MIN.

Definition int_range (z : Z) : Prop := INT_MIN <= z <= INT_MAX.

(** ** src/init.c *)

Module Init.

(** Every call that leaves init.c: the two operations on the static
    [ssh_init_mutex], the three bring-up collaborators, the three teardown
    collaborators, and the message [auto_init] and [auto_finalize] print. *)
Inductive extern : Type :=
| mutex_lock
| mutex_unlock
| threads_init
| crypto_init
| socket_init
| crypto_finalize
| socket_cleanup
| threads_finalize
| fprintf_stderr.

Definition extern_eq_dec (a b : extern) : {a = b} + {a <> b}.
Proof. decide equality. Defined.

(** The bring-up and teardown collaborators among the calls. *)
Definition is_collaborator (e : extern) : bool :=
  match e with
  | mutex_lock | mutex_unlock | fprintf_stderr => false
  | _ => true
  end.

Definition collaborator_calls (t : list extern) : list extern :=
  List.filter is_collaborator t.

(** The two file-scope variables of init.c. *)
Record globals : Type := Globals {
  _ssh_initialized : Z;   (* static int _ssh_initialized = 0; *)
  _ssh_init_ret : Z       (* static int _ssh_init_ret = 0;    *)
}.

Definition globals0 : globals := Globals 0 0.

(** The status each bring-up collaborator returns when it is called. The
    three functions are defined outside init.c. *)
Record collaborators : Type := Collaborators {
  threads_status : Z;
  crypto_status : Z;
  socket_status : Z
}.

(** A computation reads and writes the globals and emits the calls it
    makes, in order. *)
Definition M (A : Type) : Type := globals -> A * globals * list extern.

Definition ret {A} (a : A) : M A := fun g => (a, g, []).

Definition bind {A B} (c : M A) (k : A -> M B) : M B :=
  fun g =>
    let '(a, g1, t1) := c g in
    let '(b, g2, t2) := k a g1 in
    (b, g2, t1 ++ t2).

Declare Scope prog_scope.
Delimit Scope prog_scope with prog.
Notation "x <- c ;; k" := (bind c (fun x => k))
  (at level 100, c at next level, right associativity) : prog_scope.
Notation "c ;; k" := (bind c (fun _ => k))
  (at level 100, right associativity) : prog_scope.
Local Open Scope prog_scope.

Definition call {A} (e : extern) (a : A) : M A := fun g => (a, g, [e]).

Definition get_initialized : M Z := fun g => (_ssh_initialized g, g, []).
Definition set_initialized (n : Z) : M unit :=
  fun g => (tt, Globals n (_ssh_init_ret g), []).
Definition get_init_ret : M Z := fun g => (_ssh_init_ret g, g, []).
Definition set_init_ret (rc : Z) : M unit :=
  fun g => (tt, Globals (_ssh_initialized g) rc, []).

Definition when (b : bool) (c : M unit) : M unit := if b then c else ret tt.

Section InitC.

(** Whether the build has pthreads. Without them the three
    [SSH_STATIC_MUTEX] macros expand to nothing. *)
Variable HAVE_PTHREAD : bool.

(** What the collaborators answer during the call at hand. *)
Variable E : collaborators.

Definition SSH_STATIC_MUTEX_LOCK : M unit :=
  when HAVE_PTHREAD (call mutex_lock tt).
Definition SSH_STATIC_MUTEX_UNLOCK : M unit :=
  when HAVE_PTHREAD (call mutex_unlock tt).

Definition ssh_threads_init : M Z := call threads_init (threads_status E).
Definition ssh_crypto_init : M Z := call crypto_init (crypto_status E).
Definition ssh_socket_init : M Z := call socket_init (socket_status E).
Definition ssh_crypto_finalize : M unit := call crypto_finalize tt.
Definition ssh_socket_cleanup : M unit := call socket_cleanup tt.
Definition ssh_threads_finalize : M unit := call threads_finalize tt.

(** [static int _ssh_init(unsigned constructor)]. Each [goto _ret] is the
    end of the block that computes [rc]. *)
Definition _ssh_init (constructor : Z) : M Z :=
  when (constructor =? 0) SSH_STATIC_MUTEX_LOCK ;;
  n <- get_initialized ;;
  set_initialized (int_wrap (n + 1)) ;;
  n <- get_initialized ;;
  rc <- (if 1 <? n then get_init_ret
         else
           rc <- ssh_threads_init ;;
           if negb (rc =? 0) then ret rc
           else
             rc <- ssh_crypto_init ;;
             if negb (rc =? 0) then ret rc
             else
               rc <- ssh_socket_init ;;
               ret rc) ;;
  set_init_ret rc ;;
  when (constructor =? 0) SSH_STATIC_MUTEX_UNLOCK ;;
  ret rc.

(** [static int _ssh_finalize(unsigned destructor)]. *)
Definition _ssh_finalize (destructor : Z) : M Z :=
  when (destructor =? 0) SSH_STATIC_MUTEX_LOCK ;;
  n <- get_initialized ;;
  (if n =? 1 then
     set_initialized 0 ;;
     r <- get_init_ret ;;
     if r <? 0 then ret tt
     else
       ssh_crypto_finalize ;;
       ssh_socket_cleanup ;;
       ssh_threads_finalize
   else
     n <- get_initialized ;;
     if 0 <? n then set_initialized (int_wrap (n - 1)) else ret tt) ;;
  when (destructor =? 0) SSH_STATIC_MUTEX_UNLOCK ;;
  ret 0.

(** The four entry points. *)
Definition ssh_init : M Z := _ssh_init 0.
Definition ssh_finalize : M Z := _ssh_finalize 0.

Definition auto_init : M unit :=
  rc <- _ssh_init 1 ;;
  when (rc <? 0) (call fprintf_stderr tt).

Definition auto_finalize : M unit :=
  rc <- _ssh_finalize 1 ;;
  when (rc <? 0) (call fprintf_stderr tt).

End InitC.

(** A call of the API, as an application or the loader makes it: the flag
    is the [constructor] or [destructor] argument, and an [init] comes with
    the answers the collaborators would give during it. *)
Inductive api : Type :=
| init (constructor : Z) (E : collaborators)
| finalize (destructor : Z).

Definition step (have : bool) (c : api) : M Z :=
  match c with
  | init constructor E => _ssh_init have E constructor
  | finalize destructor => _ssh_finalize have destructor
  end.

(** The calls of a list, one after the other. *)
Fixpoint sequence (have : bool) (cs : list api) : M unit :=
  match cs with
  | [] => ret tt
  | c :: cs => step have c ;; sequence have cs
  end.

(** The parts of a finished call. *)
Definition status {A} (r : A * globals * list extern) : A := fst (fst r).
Definition after {A} (r : A * globals * list extern) : globals := snd (fst r).
Definition calls {A} (r : A * globals * list extern) : list extern := snd r.
Arguments status {A} !r /.
Arguments after {A} !r /.
Arguments calls {A} !r /.

(** The statuses the calls of a list return, in order. *)
Fixpoint results (have : bool) (cs : list api) (g : globals) : list Z :=
  match cs with
  | [] => []
  | c :: cs =>
      let r := step have c g in
      status r :: results have cs (after r)
  end.

(** The calls around the body of an entry point: the lock is taken unless
    the caller is the load hook or there are no pthreads. *)
Definition locked (have : bool) (hook : Z) (body : list extern) : list extern :=
  (if (hook =? 0) && have then [mutex_lock] else [])
    ++ body ++
  (if (hook =? 0) && have then [mutex_unlock] else []).

(** The status and the collaborator calls of a bring-up, by the answers
    of the collaborators. *)
Definition bring_up (E : collaborators) : Z * list extern :=
  if negb (threads_status E =? 0) then (threads_status E, [threads_init])
  else if negb (crypto_status E =? 0)
       then (crypto_status E, [threads_init; crypto_init])
       else (socket_status E, [threads_init; crypto_init; socket_init]).

Definition is_init (c : api) : Prop :=
  match c with init _ _ => True | finalize _ => False end.
Definition is_finalize (c : api) : Prop :=
  match c with init _ _ => False | finalize _ => True end.

(** All three collaborators answer success. *)
Definition succeeds (E : collaborators) : Prop :=
  threads_status E = 0 /\ crypto_status E = 0 /\ socket_status E = 0.

Definition occurrences (e : extern) (t : list extern) : nat :=
  count_occ extern_eq_dec t e.

(** How many calls of a list are init calls, and how many finalize calls. *)
Fixpoint count_inits (cs : list api) : Z :=
  match cs with
  | [] => 0
  | init _ _ :: cs => 1 + count_inits cs
  | finalize _ :: cs => count_inits cs
  end.

Fixpoint count_finalizes (cs : list api) : Z :=
  match cs with
  | [] => 0
  | init _ _ :: cs => count_finalizes cs
  | finalize _ :: cs => 1 + count_finalizes cs
  end.

End Init.

(** ** src/threads/pthread.c *)

Module Pthread.

(** Pointers are addresses, [NULL] is address 0. The two error numbers are
    those of <errno.h> on Linux. *)
Definition NULL : Z := 0.
Definition ENOMEM : Z := 12.
Definition EINVAL : Z := 22.

(** The calls into libc and libpthread, with the address each is applied
    to. [pthread_mutexattr_settype] is always asked for
    [PTHREAD_MUTEX_ERRORCHECK]; [malloc] is always asked for
    [sizeof(pthread_mutex_t)] and is listed with the pointer it returned. *)
Inductive extern : Type :=
| pthread_mutexattr_init
| pthread_mutexattr_settype
| malloc (returned : Z)
| free (ptr : Z)
| pthread_mutex_init (mutex : Z)
| pthread_mutex_destroy (mutex : Z)
| pthread_mutex_lock (mutex : Z)
| pthread_mutex_unlock (mutex : Z)
| pthread_self.

(** What libc and libpthread answer: the status of each call (by the
    address of the mutex it is applied to), the pointer [malloc] returns
    ([NULL] when it fails) and the id of the calling thread. *)
Record libc : Type := Libc {
  mutexattr_init_status : Z;
  mutexattr_settype_status : Z;
  malloc_result : Z;
  mutex_init_status : Z -> Z;
  mutex_destroy_status : Z -> Z;
  mutex_lock_status : Z -> Z;
  mutex_unlock_status : Z -> Z;
  self : Z
}.

(** Memory: the pointer-sized cells that were written (a [void *] each,
    by address), the live heap blocks, and the addresses at which a
    [pthread_mutex_t] has been constructed and not destroyed. *)
Record mem : Type := Mem {
  cells : gmap Z Z;
  blocks : gset Z;
  mutexes : gset Z
}.

Definition mem0 : mem := Mem ∅ ∅ ∅.

(** Some behaviours of the libraries: every call succeeds and [malloc]
    returns [p]; [malloc] fails; the construction of a mutex, the
    initialisation of the attribute or the setting of its type fails with
    status [rc]. *)
Definition libc_ok (p : Z) : libc :=
  Libc 0 0 p (fun _ => 0) (fun _ => 0) (fun _ => 0) (fun _ => 0) 1.
Definition libc_no_memory : libc :=
  Libc 0 0 0 (fun _ => 0) (fun _ => 0) (fun _ => 0) (fun _ => 0) 1.
Definition libc_no_mutex (p rc : Z) : libc :=
  Libc 0 0 p (fun _ => rc) (fun _ => 0) (fun _ => 0) (fun _ => 0) 1.
Definition libc_no_attr (rc : Z) : libc :=
  Libc rc 0 200 (fun _ => 0) (fun _ => 0) (fun _ => 0) (fun _ => 0) 1.
Definition libc_no_settype (rc : Z) : libc :=
  Libc 0 rc 200 (fun _ => 0) (fun _ => 0) (fun _ => 0) (fun _ => 0) 1.

(** A call either returns, or ends the process through [exit]. Both carry
    the calls made so far. *)
Inductive outcome (A : Type) : Type :=
| Returns (a : A) (m : mem) (t : list extern)
| Exits (status : Z) (t : list extern).
Arguments Returns {A} a m t.
Arguments Exits {A} status t.

Definition P (A : Type) : Type := mem -> outcome A.

Definition ret {A} (a : A) : P A := fun m => Returns a m [].

Definition bind {A B} (c : P A) (k : A -> P B) : P B :=
  fun m =>
    match c m with
    | Returns a m1 t1 =>
        match k a m1 with
        | Returns b m2 t2 => Returns b m2 (t1 ++ t2)
        | Exits s t2 => Exits s (t1 ++ t2)
        end
    | Exits s t1 => Exits s t1
    end.

Declare Scope proc_scope.
Delimit Scope proc_scope with proc.
Notation "x <- c ;; k" := (bind c (fun x => k))
  (at level 100, c at next level, right associativity) : proc_scope.
Notation "c ;; k" := (bind c (fun _ => k))
  (at level 100, right associativity) : proc_scope.
Local Open Scope proc_scope.

Definition exit {A} (status : Z) : P A := fun _ => Exits status [].

Definition when (b : bool) (c : P unit) : P unit := if b then c else ret tt.

(** [struct ssh_threads_callbacks_struct], with the fields the two
    initialisers of the repository give it: a name, the four lock
    operations on a [void **] and the thread id. *)
Record ssh_threads_callbacks_struct : Type := {
  type : String.string;
  mutex_init : Z -> P Z;
  mutex_destroy : Z -> P Z;
  mutex_lock : Z -> P Z;
  mutex_unlock : Z -> P Z;
  thread_id : P Z
}.

(** [*a] and [*a = v] for a cell holding a pointer. A cell never written
    reads as [NULL], as static storage does. The model has no fault: a
    dereference of [NULL], undefined in C, reads or writes a cell at
    address 0 and goes on. What is stated of a function that dereferences
    its [void **] argument unguarded is therefore stated for a non-null
    argument. *)
Definition load (a : Z) : P Z :=
  fun m => Returns (default NULL (cells m !! a)) m [].
Definition store (a v : Z) : P unit :=
  fun m => Returns tt (Mem (<[a := v]> (cells m)) (blocks m) (mutexes m)) [].

Section PthreadC.

Variable L : libc.

Definition call_pthread_mutexattr_init : P Z :=
  fun m => Returns (mutexattr_init_status L) m [pthread_mutexattr_init].

Definition call_pthread_mutexattr_settype : P Z :=
  fun m => Returns (mutexattr_settype_status L) m [pthread_mutexattr_settype].

Definition call_malloc : P Z :=
  fun m =>
    let p := malloc_result L in
    Returns p
      (if p =? NULL then m
       else Mem (cells m) ({[p]} ∪ blocks m) (mutexes m))
      [malloc p].

Definition call_free (p : Z) : P unit :=
  fun m => Returns tt (Mem (cells m) (blocks m ∖ {[p]}) (mutexes m)) [free p].

Definition call_pthread_mutex_init (mutex : Z) : P Z :=
  fun m =>
    let rc := mutex_init_status L mutex in
    Returns rc
      (if rc =? 0 then Mem (cells m) (blocks m) ({[mutex]} ∪ mutexes m)
       else m)
      [pthread_mutex_init mutex].

Definition call_pthread_mutex_destroy (mutex : Z) : P Z :=
  fun m =>
    let rc := mutex_destroy_status L mutex in
    Returns rc
      (if rc =? 0 then Mem (cells m) (blocks m) (mutexes m ∖ {[mutex]})
       else m)
      [pthread_mutex_destroy mutex].

Definition call_pthread_mutex_lock (mutex : Z) : P Z :=
  fun m => Returns (mutex_lock_status L mutex) m [pthread_mutex_lock mutex].

Definition call_pthread_mutex_unlock (mutex : Z) : P Z :=
  fun m => Returns (mutex_unlock_status L mutex) m [pthread_mutex_unlock mutex].

Definition call_pthread_self : P Z :=
  fun m => Returns (self L) m [pthread_self].

(** *** The backend, [ssh_threads_pthread]

    Each operation takes [void **mutex], the address of the cell that
    holds the pointer to the lock. *)

Definition ssh_pthread_mutex_init (mutex : Z) : P Z :=
  rc <- call_pthread_mutexattr_init ;;
  when (negb (rc =? 0)) (exit rc) ;;
  rc <- call_pthread_mutexattr_settype ;;
  when (negb (rc =? 0)) (exit rc) ;;
  p <- call_malloc ;;
  store mutex p ;;
  p <- load mutex ;;
  if p =? NULL then ret ENOMEM
  else
    p <- load mutex ;;
    rc <- call_pthread_mutex_init p ;;
    when (negb (rc =? 0))
      (p <- load mutex ;;
       call_free p ;;
       store mutex NULL) ;;
    ret rc.

Definition ssh_pthread_mutex_destroy (mutex : Z) : P Z :=
  p <- load mutex ;;
  rc <- call_pthread_mutex_destroy p ;;
  p <- load mutex ;;
  call_free p ;;
  store mutex NULL ;;
  ret rc.

Definition ssh_pthread_mutex_lock (mutex : Z) : P Z :=
  p <- load mutex ;;
  call_pthread_mutex_lock p.

Definition ssh_pthread_mutex_unlock (mutex : Z) : P Z :=
  p <- load mutex ;;
  call_pthread_mutex_unlock p.

Definition ssh_pthread_thread_id : P Z := call_pthread_self.

Definition ssh_threads_pthread : ssh_threads_callbacks_struct := {|
  type := "threads_pthread"%string;
  mutex_init := ssh_pthread_mutex_init;
  mutex_destroy := ssh_pthread_mutex_destroy;
  mutex_lock := ssh_pthread_mutex_lock;
  mutex_unlock := ssh_pthread_mutex_unlock;
  thread_id := ssh_pthread_thread_id
|}.

(** *** The threads interface *)

(** [mutex] is the address of the static [pthread_mutex_t] itself. *)
Definition ssh_static_mutex_init (mutex : Z) : P unit :=
  when (mutex =? NULL) (exit EINVAL) ;;
  rc <- call_pthread_mutexattr_init ;;
  when (negb (rc =? 0)) (exit rc) ;;
  rc <- call_pthread_mutexattr_settype ;;
  when (negb (rc =? 0)) (exit rc) ;;
  rc <- call_pthread_mutex_init mutex ;;
  when (negb (rc =? 0)) (exit rc).

Definition ssh_mutex_init (mutex : Z) : P unit :=
  when (mutex =? NULL) (exit EINVAL) ;;
  rc <- ssh_pthread_mutex_init mutex ;;
  when (negb (rc =? 0)) (exit rc).

(** [ssh_mutex_lock] and [ssh_mutex_unlock] pass [(void ** )&mutex], the
    address of their own parameter. [param] is that address: the cell in
    the frame of the call where the argument [mutex] is stored on entry. *)
Definition ssh_mutex_lock (param : Z) (mutex : Z) : P unit :=
  store param mutex ;;
  when (mutex =? NULL) (exit EINVAL) ;;
  rc <- ssh_pthread_mutex_lock param ;;
  when (negb (rc =? 0)) (exit rc).

Definition ssh_mutex_unlock (param : Z) (mutex : Z) : P unit :=
  store param mutex ;;
  when (mutex =? NULL) (exit EINVAL) ;;
  rc <- ssh_pthread_mutex_unlock param ;;
  when (negb (rc =? 0)) (exit rc).

Definition ssh_mutex_destroy (mutex : Z) : P unit :=
  when (mutex =? NULL) (exit EINVAL) ;;
  rc <- ssh_pthread_mutex_destroy mutex ;;
  when (negb (rc =? 0)) (exit rc).

(** Both return the address of [ssh_threads_pthread]. *)
Definition ssh_threads_get_pthread : ssh_threads_callbacks_struct :=
  ssh_threads_pthread.
Definition ssh_threads_get_default : ssh_threads_callbacks_struct :=
  ssh_threads_pthread.

End PthreadC.

(** The parts of an outcome. *)
Definition calls {A} (o : outcome A) : list extern :=
  match o with Returns _ _ t => t | Exits _ t => t end.
Definition returned {A} (o : outcome A) : option A :=
  match o with Returns a _ _ => Some a | Exits _ _ => None end.
Definition exit_status {A} (o : outcome A) : option Z :=
  match o with Returns _ _ _ => None | Exits s _ => Some s end.
Definition memory {A} (o : outcome A) : option mem :=
  match o with Returns _ m _ => Some m | Exits _ _ => None end.

(** The handle's pointee: what the cell at [mutex] holds. *)
Definition pointee (mutex : Z) (m : mem) : Z := default NULL (cells m !! mutex).

(** The addresses the backend lock and unlock operations were applied to. *)
Definition locked_at (t : list extern) : list Z :=
  List.flat_map (fun e => match e with
                          | pthread_mutex_lock a => [a]
                          | pthread_mutex_unlock a => [a]
                          | _ => []
                          end) t.

(** The calls that allocate or release heap storage. *)
Definition is_heap_call (e : extern) : bool :=
  match e with
  | malloc _ | free _ => true
  | _ => false
  end.

End Pthread.

(** ** src/threads/noop.c *)

Module Noop.

Import Pthread.

Definition threads_noop (lock : Z) : P Z := ret 0.

Definition threads_id_noop : P Z := ret 1.

Definition ssh_threads_noop : ssh_threads_callbacks_struct := {|
  type := "threads_noop"%string;
  mutex_init := threads_noop;
  mutex_destroy := threads_noop;
  mutex_lock := threads_noop;
  mutex_unlock := threads_noop;
  thread_id := threads_id_noop
|}.

(** Both return the address of [ssh_threads_noop]. *)
Definition ssh_threads_get_noop : ssh_threads_callbacks_struct :=
  ssh_threads_noop.
Definition ssh_threads_get_default : ssh_threads_callbacks_struct :=
  ssh_threads_noop.

End Noop.

(** * Properties *)

(** ** C [int] *)

Lemma int_wrap_id (z : Z) : int_range z -> int_wrap z = z.
Proof.
  unfold int_range, int_wrap, INT_MIN, INT_MAX. intros H.
  rewrite Z.mod_small by lia. lia.
Qed.

Lemma int_wrap_range (z : Z) : int_range (int_wrap z).
Proof.
  unfold int_range, int_wrap, INT_MIN, INT_MAX.
  pose proof (Z.mod_pos_bound (z - -2147483648) 4294967296 ltac:(lia)). lia.
Qed.

Lemma int_wrap_overflow : int_wrap (INT_MAX + 1) = INT_MIN.
Proof. reflexivity. Qed.

(** ** The lifecycle counter *)

Section InitTheory.

Import Init.
Local Open Scope prog_scope.

(** Unfolds a call down to the globals it leaves and the calls it made. *)
Ltac run :=
  cbv beta iota zeta delta
    [_ssh_init _ssh_finalize ssh_init ssh_finalize bind ret call when
     get_initialized set_initialized get_init_ret set_init_ret
     SSH_STATIC_MUTEX_LOCK SSH_STATIC_MUTEX_UNLOCK
     ssh_threads_init ssh_crypto_init ssh_socket_init
     ssh_crypto_finalize ssh_socket_cleanup ssh_threads_finalize
     status after calls locked
     _ssh_initialized _ssh_init_ret fst snd].

Ltac int_arith := unfold int_range, INT_MIN, INT_MAX in *; lia.

(** *** The two functions, by cases *)

Lemma _ssh_init_eq (have : bool) (E : collaborators) (constructor : Z) (g : globals) :
  _ssh_init have E constructor g =
  let n := int_wrap (_ssh_initialized g + 1) in
  let '(rc, body) := if 1 <? n then (_ssh_init_ret g, []) else bring_up E in
  (rc, Globals n rc, locked have constructor body).
Proof.
  destruct g as [n c]. unfold bring_up. run.
  destruct (constructor =? 0), have, (1 <? int_wrap (n + 1)),
    (threads_status E =? 0), (crypto_status E =? 0); reflexivity.
Qed.

Lemma _ssh_finalize_eq (have : bool) (destructor : Z) (g : globals) :
  _ssh_finalize have destructor g =
  let n := _ssh_initialized g in
  if n =? 1 then
    (0, Globals 0 (_ssh_init_ret g),
     locked have destructor
       (if _ssh_init_ret g <? 0 then []
        else [crypto_finalize; socket_cleanup; threads_finalize]))
  else
    (0, (if 0 <? n then Globals (int_wrap (n - 1)) (_ssh_init_ret g) else g),
     locked have destructor []).
Proof.
  destruct g as [n c]. run.
  destruct (destructor =? 0), have, (n =? 1), (c <? 0), (0 <? n); reflexivity.
Qed.

Lemma _ssh_init_first (have : bool) (E : collaborators) (k : Z) (g : globals) :
  _ssh_initialized g = 0 ->
  _ssh_init have E k g =
    (fst (bring_up E), Globals 1 (fst (bring_up E)),
     locked have k (snd (bring_up E))).
Proof.
  intros H0. rewrite _ssh_init_eq, H0. change (int_wrap (0 + 1)) with 1.
  cbv zeta. change (1 <? 1) with false. cbv iota.
  now destruct (bring_up E).
Qed.

Lemma _ssh_init_later (have : bool) (E : collaborators) (k : Z) (g : globals) :
  1 <= _ssh_initialized g < INT_MAX ->
  _ssh_init have E k g =
    (_ssh_init_ret g, Globals (_ssh_initialized g + 1) (_ssh_init_ret g),
     locked have k []).
Proof.
  intros Hn. rewrite _ssh_init_eq, int_wrap_id by int_arith. cbv zeta.
  now destruct (Z.ltb_spec 1 (_ssh_initialized g + 1)); [| lia].
Qed.

Lemma _ssh_finalize_last (have : bool) (d : Z) (g : globals) :
  _ssh_initialized g = 1 ->
  _ssh_finalize have d g =
    (0, Globals 0 (_ssh_init_ret g),
     locked have d
       (if _ssh_init_ret g <? 0 then []
        else [crypto_finalize; socket_cleanup; threads_finalize])).
Proof. intros H1. now rewrite _ssh_finalize_eq, H1. Qed.

Lemma _ssh_finalize_earlier (have : bool) (d : Z) (g : globals) :
  1 < _ssh_initialized g <= INT_MAX ->
  _ssh_finalize have d g =
    (0, Globals (_ssh_initialized g - 1) (_ssh_init_ret g), locked have d []).
Proof.
  intros Hn. rewrite _ssh_finalize_eq. cbv zeta.
  destruct (Z.eqb_spec (_ssh_initialized g) 1); [lia |].
  destruct (Z.ltb_spec 0 (_ssh_initialized g)); [| lia].
  now rewrite int_wrap_id by int_arith.
Qed.

Lemma _ssh_finalize_idle (have : bool) (d : Z) (g : globals) :
  _ssh_initialized g <= 0 ->
  _ssh_finalize have d g = (0, g, locked have d []).
Proof.
  intros Hn. rewrite _ssh_finalize_eq. cbv zeta.
  destruct (Z.eqb_spec (_ssh_initialized g) 1); [lia |].
  now destruct (Z.ltb_spec 0 (_ssh_initialized g)); [lia |].
Qed.

Lemma bring_up_succeeds (E : collaborators) :
  succeeds E -> bring_up E = (0, [threads_init; crypto_init; socket_init]).
Proof. intros (Ht & Hc & Hs). unfold bring_up. now rewrite Ht, Hc, Hs. Qed.

(** *** Traces *)

Lemma collaborator_calls_locked (have : bool) (hook : Z) (body : list extern) :
  collaborator_calls (locked have hook body) = collaborator_calls body.
Proof.
  unfold locked, collaborator_calls.
  rewrite !List.filter_app.
  destruct ((hook =? 0) && have); simpl; now rewrite ?app_nil_r.
Qed.

Lemma collaborator_calls_app (t1 t2 : list extern) :
  collaborator_calls (t1 ++ t2) = collaborator_calls t1 ++ collaborator_calls t2.
Proof. apply List.filter_app. Qed.

Lemma occurrences_collaborator (e : extern) (t : list extern) :
  is_collaborator e = true ->
  occurrences e t = occurrences e (collaborator_calls t).
Proof.
  intros He. unfold occurrences, collaborator_calls.
  induction t as [| x t IH]; [reflexivity |].
  cbn [List.filter count_occ].
  destruct (is_collaborator x) eqn:Hx; cbn [count_occ];
    destruct (extern_eq_dec x e) as [-> | Hne]; congruence.
Qed.

(** *** Sequences of calls *)

Lemma sequence_cons (have : bool) (c : api) (cs : list api) (g : globals) :
  sequence have (c :: cs) g =
  (tt, after (sequence have cs (after (step have c g))),
   calls (step have c g) ++ calls (sequence have cs (after (step have c g)))).
Proof.
  cbn [sequence]. unfold bind, after, calls.
  destruct (step have c g) as [[a g1] t1]. cbn [fst snd].
  destruct (sequence have cs g1) as [[[] g2] t2]. reflexivity.
Qed.

Lemma sequence_app (have : bool) (cs1 cs2 : list api) (g : globals) :
  sequence have (cs1 ++ cs2) g =
  (tt, after (sequence have cs2 (after (sequence have cs1 g))),
   calls (sequence have cs1 g)
     ++ calls (sequence have cs2 (after (sequence have cs1 g)))).
Proof.
  revert g. induction cs1 as [| c cs1 IH]; intros g.
  - cbn. destruct (sequence have cs2 g) as [[[] g2] t2]. reflexivity.
  - rewrite <- app_comm_cons, !sequence_cons, IH.
    cbn [after calls fst snd]. now rewrite app_assoc.
Qed.

(** Further init calls within an epoch only count, and all return what is
    cached. *)
Lemma sequence_inits (have : bool) (cs : list api) (g : globals) :
  Forall is_init cs ->
  1 <= _ssh_initialized g ->
  _ssh_initialized g + Z.of_nat (length cs) <= INT_MAX ->
  let r := sequence have cs g in
  _ssh_initialized (after r) = _ssh_initialized g + Z.of_nat (length cs) /\
  _ssh_init_ret (after r) = _ssh_init_ret g /\
  collaborator_calls (calls r) = [] /\
  results have cs g = repeat (_ssh_init_ret g) (length cs).
Proof.
  revert g. induction cs as [| c cs IH]; intros g Hall H1 Hmax.
  - cbn. repeat split; lia.
  - inversion Hall as [| c' cs' Hc Hcs]; subst.
    destruct c as [k E | d]; [| contradiction].
    cbn [length] in *. rewrite Nat2Z.inj_succ in *.
    cbv zeta. rewrite sequence_cons. cbn [step results repeat].
    rewrite _ssh_init_later by lia. cbn [status after calls fst snd].
    destruct (IH (Globals (_ssh_initialized g + 1) (_ssh_init_ret g)) Hcs
                ltac:(cbn; lia) ltac:(cbn; lia)) as (Hn & Hr & Ht & Hs).
    cbn [_ssh_initialized _ssh_init_ret] in Hn, Hr, Hs.
    rewrite collaborator_calls_app, collaborator_calls_locked, Ht, Hn, Hr, Hs.
    repeat split; lia.
Qed.

(** Finalize calls only count down until the one that finds the counter at
    1, which tears down. *)
Lemma sequence_finalizes (have : bool) (cs : list api) (g : globals) :
  Forall is_finalize cs ->
  _ssh_init_ret g = 0 ->
  1 <= _ssh_initialized g <= INT_MAX ->
  Z.of_nat (length cs) <= _ssh_initialized g ->
  let r := sequence have cs g in
  _ssh_initialized (after r) = _ssh_initialized g - Z.of_nat (length cs) /\
  collaborator_calls (calls r) =
    if Z.of_nat (length cs) =? _ssh_initialized g
    then [crypto_finalize; socket_cleanup; threads_finalize] else [].
Proof.
  revert g. induction cs as [| c cs IH]; intros g Hall Hr Hn Hlen.
  - cbn [sequence ret after calls fst snd length]. change (Z.of_nat 0) with 0.
    destruct (Z.eqb_spec 0 (_ssh_initialized g)); [lia |]. split; [lia | reflexivity].
  - inversion Hall as [| c' cs' Hc Hcs]; subst.
    destruct c as [k E | d]; [contradiction |].
    cbn [length] in *. rewrite Nat2Z.inj_succ in *.
    cbv zeta. rewrite sequence_cons. cbn [step].
    destruct (Z.eq_dec (_ssh_initialized g) 1) as [E1 | N1].
    + rewrite _ssh_finalize_last, Hr by exact E1. cbn [after calls fst snd].
      assert (cs = []) as -> by (destruct cs; [reflexivity | cbn [length] in Hlen; lia]).
      cbn [sequence ret after calls fst snd length].
      rewrite app_nil_r, collaborator_calls_locked, E1. split; reflexivity.
    + rewrite _ssh_finalize_earlier by lia. cbn [after calls fst snd].
      destruct (IH (Globals (_ssh_initialized g - 1) (_ssh_init_ret g)) Hcs Hr
                  ltac:(cbn; lia) ltac:(cbn; lia)) as [Hn' Ht'].
      cbn [_ssh_initialized] in Hn', Ht'.
      rewrite collaborator_calls_app, collaborator_calls_locked, Hn', Ht'.
      split; [lia |]. cbn [collaborator_calls List.filter app].
      destruct (Z.eqb_spec (Z.of_nat (length cs)) (_ssh_initialized g - 1));
        destruct (Z.eqb_spec (Z.succ (Z.of_nat (length cs))) (_ssh_initialized g));
        try lia; reflexivity.
Qed.

(** Every caller of an epoch is returned what the first caller was. *)
Lemma epoch_same_result
    (have : bool) (k : Z) (E : collaborators) (cs : list api) (g : globals) :
  Forall is_init cs ->
  _ssh_initialized g = 0 ->
  Z.of_nat (length cs) < INT_MAX ->
  results have (init k E :: cs) g = repeat (fst (bring_up E)) (S (length cs)).
Proof.
  intros Hall H0 Hlen. cbn [results step repeat].
  rewrite _ssh_init_first by exact H0. cbn [status after fst snd].
  destruct (sequence_inits have cs (Globals 1 (fst (bring_up E))) Hall
              ltac:(cbn; lia) ltac:(cbn; lia)) as (_ & _ & _ & Hs).
  now rewrite Hs.
Qed.

(** As long as the increment cannot overflow, no sequence of calls takes
    the counter below 0, nor above the number of calls made. *)
Lemma counter_stays_in_range (have : bool) (cs : list api) (g : globals) :
  0 <= _ssh_initialized g ->
  _ssh_initialized g + Z.of_nat (length cs) <= INT_MAX ->
  0 <= _ssh_initialized (after (sequence have cs g))
    <= _ssh_initialized g + Z.of_nat (length cs).
Proof.
  revert g. induction cs as [| c cs IH]; intros g H0 Hmax.
  - cbn. lia.
  - cbn [length] in *. rewrite Nat2Z.inj_succ in *.
    rewrite sequence_cons. cbn [after fst snd].
    assert (Hstep : 0 <= _ssh_initialized (after (step have c g))
                      <= _ssh_initialized g + 1).
    { destruct c as [k E | d]; cbn [step].
      - destruct (Z.eq_dec (_ssh_initialized g) 0) as [Ez | Nz].
        + rewrite _ssh_init_first by exact Ez. cbn. lia.
        + rewrite _ssh_init_later by lia. cbn. lia.
      - destruct (Z.eq_dec (_ssh_initialized g) 0) as [Ez | Nz];
          [rewrite _ssh_finalize_idle by lia; cbn; lia |].
        destruct (Z.eq_dec (_ssh_initialized g) 1) as [E1 | N1];
          [rewrite _ssh_finalize_last by exact E1; cbn; lia |].
        rewrite _ssh_finalize_earlier by lia. cbn. lia. }
    specialize (IH (after (step have c g)) ltac:(lia) ltac:(lia)). lia.
Qed.

(** *** Bring-up *)

(** C4. An init call that finds the counter at 0 leaves it at 1, calls the
    thread backend, then crypto, then sockets, stops after the first of them
    that answers nonzero, and both caches and returns that answer, which is
    0 when all three succeeded. *)
Theorem init_first_caller_brings_up
    (have : bool) (E : collaborators) (constructor : Z) (g : globals) :
  _ssh_initialized g = 0 ->
  let r := _ssh_init have E constructor g in
  _ssh_initialized (after r) = 1 /\
  _ssh_init_ret (after r) = status r /\
  (threads_status E <> 0 ->
     status r = threads_status E /\
     calls r = locked have constructor [threads_init]) /\
  (threads_status E = 0 -> crypto_status E <> 0 ->
     status r = crypto_status E /\
     calls r = locked have constructor [threads_init; crypto_init]) /\
  (threads_status E = 0 -> crypto_status E = 0 ->
     status r = socket_status E /\
     calls r = locked have constructor [threads_init; crypto_init; socket_init]).
Proof.
  intros H0 r. subst r. rewrite _ssh_init_first by exact H0. unfold bring_up.
  destruct (Z.eqb_spec (threads_status E) 0) as [Ht | Ht];
    destruct (Z.eqb_spec (crypto_status E) 0) as [Hc | Hc];
    cbn; repeat split; intros; congruence.
Qed.

Lemma init_first_caller_brings_up_witness :
  let r := _ssh_init true (Collaborators 0 (-1) 0) 0 globals0 in
  _ssh_initialized (after r) = 1 /\
  _ssh_init_ret (after r) = -1 /\
  status r = -1 /\
  calls r = [mutex_lock; threads_init; crypto_init; mutex_unlock].
Proof.
  pose proof (init_first_caller_brings_up true (Collaborators 0 (-1) 0) 0
                globals0 eq_refl) as (H1 & H2 & _ & H4 & _).
  destruct (H4 eq_refl ltac:(discriminate)) as [H5 H6].
  cbv zeta. rewrite H1, H2, H5, H6. repeat split; reflexivity.
Defined.

(** C5, as amended. An init call that finds the counter at some n with
    1 <= n < INT_MAX leaves it at n + 1, calls no collaborator, returns the
    cached result and leaves it in place for the callers after it. *)
Theorem init_later_caller_reuses_result
    (have : bool) (E : collaborators) (constructor : Z) (g : globals) :
  1 <= _ssh_initialized g < INT_MAX ->
  let r := _ssh_init have E constructor g in
  _ssh_initialized (after r) = _ssh_initialized g + 1 /\
  calls r = locked have constructor [] /\
  collaborator_calls (calls r) = [] /\
  status r = _ssh_init_ret g /\
  _ssh_init_ret (after r) = _ssh_init_ret g.
Proof.
  intros Hn r. subst r. rewrite _ssh_init_later by exact Hn.
  cbn [status after calls fst snd _ssh_initialized _ssh_init_ret].
  rewrite collaborator_calls_locked. repeat split; reflexivity.
Qed.

Lemma init_later_caller_reuses_result_witness :
  let r := _ssh_init true (Collaborators 0 0 0) 0 (Globals 1 (-1)) in
  _ssh_initialized (after r) = 2 /\
  calls r = [mutex_lock; mutex_unlock] /\
  collaborator_calls (calls r) = [] /\
  status r = -1 /\
  _ssh_init_ret (after r) = -1.
Proof.
  apply (init_later_caller_reuses_result true (Collaborators 0 0 0) 0
           (Globals 1 (-1))).
  unfold INT_MAX. simpl. lia.
Defined.

(** C5 as stated fails at the top of the range of [int]: there the
    increment does not give n + 1, the counter is no longer above 1 and the
    collaborators are called again. *)
Lemma init_later_caller_at_INT_MAX :
  let g := Globals INT_MAX 0 in
  let r := _ssh_init true (Collaborators 0 0 0) 0 g in
  1 <= _ssh_initialized g /\
  _ssh_initialized (after r) <> _ssh_initialized g + 1 /\
  collaborator_calls (calls r) <> [].
Proof. repeat split; vm_compute; discriminate. Qed.

(** *** Teardown *)

(** C1, as amended. A finalize call that finds the counter at 1 and a
    cached result of 0 leaves the counter at 0 and calls crypto teardown,
    then socket cleanup, then thread-backend teardown. *)
Theorem finalize_teardown_order (have : bool) (destructor : Z) (g : globals) :
  _ssh_initialized g = 1 ->
  _ssh_init_ret g = 0 ->
  let r := _ssh_finalize have destructor g in
  _ssh_initialized (after r) = 0 /\
  calls r =
    locked have destructor [crypto_finalize; socket_cleanup; threads_finalize] /\
  collaborator_calls (calls r) =
    [crypto_finalize; socket_cleanup; threads_finalize].
Proof.
  intros H1 H0 r. subst r. rewrite _ssh_finalize_last, H0 by exact H1.
  cbn [after calls fst snd _ssh_initialized]. rewrite collaborator_calls_locked.
  repeat split; reflexivity.
Qed.

Lemma finalize_teardown_order_witness :
  let g := after (_ssh_init true (Collaborators 0 0 0) 0 globals0) in
  let r := _ssh_finalize true 0 g in
  _ssh_initialized (after r) = 0 /\
  calls r = [mutex_lock; crypto_finalize; socket_cleanup; threads_finalize;
             mutex_unlock] /\
  collaborator_calls (calls r) =
    [crypto_finalize; socket_cleanup; threads_finalize].
Proof.
  apply (finalize_teardown_order true 0
           (after (_ssh_init true (Collaborators 0 0 0) 0 globals0)));
    reflexivity.
Defined.

(** C1 as stated fails: after a successful bring-up, the teardown
    collaborators are not called sockets first. *)
Lemma finalize_teardown_not_sockets_first :
  let g := after (_ssh_init true (Collaborators 0 0 0) 0 globals0) in
  let r := _ssh_finalize true 0 g in
  _ssh_initialized g = 1 /\ _ssh_init_ret g = 0 /\
  _ssh_initialized (after r) = 0 /\
  collaborator_calls (calls r)
    <> [socket_cleanup; crypto_finalize; threads_finalize].
Proof. repeat split; vm_compute; discriminate. Qed.

(** With the documented failure status -1, and any negative one, the
    teardown is skipped: a finalize call that finds the counter at 1 and a
    negative cached result resets the counter, calls no teardown
    collaborator and returns 0. *)
Theorem finalize_skips_teardown_on_negative
    (have : bool) (destructor : Z) (g : globals) :
  _ssh_initialized g = 1 ->
  _ssh_init_ret g < 0 ->
  let r := _ssh_finalize have destructor g in
  _ssh_initialized (after r) = 0 /\
  calls r = locked have destructor [] /\
  collaborator_calls (calls r) = [] /\
  status r = 0.
Proof.
  intros H1 Hneg r. subst r. rewrite _ssh_finalize_last by exact H1.
  destruct (Z.ltb_spec (_ssh_init_ret g) 0) as [_ | Hge]; [| lia].
  cbn [status after calls fst snd _ssh_initialized].
  rewrite collaborator_calls_locked. repeat split; reflexivity.
Qed.

Lemma finalize_skips_teardown_on_negative_witness :
  let g := after (_ssh_init true (Collaborators 0 (-1) 0) 0 globals0) in
  let r := _ssh_finalize true 0 g in
  _ssh_initialized (after r) = 0 /\
  calls r = [mutex_lock; mutex_unlock] /\
  collaborator_calls (calls r) = [] /\
  status r = 0.
Proof.
  apply (finalize_skips_teardown_on_negative true 0
           (after (_ssh_init true (Collaborators 0 (-1) 0) 0 globals0)));
    [reflexivity | vm_compute; reflexivity].
Defined.

(** C2 does not hold of the code for a positive failure code.
    [_ssh_init] takes any nonzero status for a failure ([if (rc)]): a
    thread backend that answers 1 makes it stop there, without calling
    crypto or sockets, and return and cache 1. [_ssh_finalize] takes only a
    negative cached result for a failure ([< 0]): the finalize call that
    follows tears down crypto, sockets and threads, which were never
    brought up. *)
Theorem finalize_tears_down_on_positive :
  let i := _ssh_init true (Collaborators 1 0 0) 0 globals0 in
  let r := _ssh_finalize true 0 (after i) in
  calls i = [mutex_lock; threads_init; mutex_unlock] /\
  status i = 1 /\
  _ssh_initialized (after i) = 1 /\
  _ssh_init_ret (after i) = 1 /\
  _ssh_initialized (after r) = 0 /\
  status r = 0 /\
  calls r = [mutex_lock; crypto_finalize; socket_cleanup; threads_finalize;
             mutex_unlock] /\
  collaborator_calls (calls r) <> [].
Proof. repeat split; vm_compute; discriminate. Qed.

(** Finalize alone: it returns 0 in every state, never takes a counter
    that is not negative below 0 (nor raises it), and in a state whose
    counter is 0 changes neither the counter nor the cached result and
    calls no collaborator. *)
Theorem finalize_floor (have : bool) (destructor : Z) (g : globals) :
  let r := _ssh_finalize have destructor g in
  status r = 0 /\
  (int_range (_ssh_initialized g) -> 0 <= _ssh_initialized g ->
     0 <= _ssh_initialized (after r) <= _ssh_initialized g) /\
  (_ssh_initialized g = 0 ->
     after r = g /\ calls r = locked have destructor [] /\
     collaborator_calls (calls r) = []).
Proof.
  intros r. subst r. split; [| split].
  - rewrite _ssh_finalize_eq. cbv zeta.
    now destruct (_ssh_initialized g =? 1).
  - intros Hint H0.
    destruct (Z.eq_dec (_ssh_initialized g) 0) as [Ez | Nz];
      [rewrite _ssh_finalize_idle by lia; cbn; lia |].
    destruct (Z.eq_dec (_ssh_initialized g) 1) as [E1 | N1];
      [rewrite _ssh_finalize_last by exact E1; cbn; lia |].
    rewrite _ssh_finalize_earlier by int_arith. cbn. lia.
  - intros Ez. rewrite _ssh_finalize_idle by lia.
    cbn [after calls fst snd]. rewrite collaborator_calls_locked.
    repeat split; reflexivity.
Qed.

Lemma finalize_floor_witness :
  let r := _ssh_finalize true 0 globals0 in
  status r = 0 /\
  0 <= _ssh_initialized (after r) <= 0 /\
  after r = globals0 /\ calls r = [mutex_lock; mutex_unlock] /\
  collaborator_calls (calls r) = [].
Proof.
  pose proof (finalize_floor true 0 globals0) as (H1 & H2 & H3).
  split; [exact H1 |].
  split; [apply H2; [unfold int_range, INT_MIN, INT_MAX; simpl; lia | simpl; lia] |].
  apply H3. reflexivity.
Defined.

(** *** A whole epoch *)

(** C7, as amended. For 1 <= N <= INT_MAX, N init calls followed by N
    finalize calls, started with the counter at 0 and with collaborators
    that succeed in the call that brings up, leave the counter at 0, and
    over the whole sequence each bring-up and each teardown collaborator is
    called exactly once: the three bring-up ones, then crypto teardown,
    socket cleanup and thread-backend teardown. *)
Theorem balanced_epoch
    (have : bool) (N : nat) (inits fins : list api) (g : globals) :
  (1 <= N)%nat ->
  Z.of_nat N <= INT_MAX ->
  length inits = N ->
  length fins = N ->
  Forall is_init inits ->
  Forall is_finalize fins ->
  (forall k E, List.hd_error inits = Some (init k E) -> succeeds E) ->
  _ssh_initialized g = 0 ->
  let r := sequence have (inits ++ fins) g in
  _ssh_initialized (after r) = 0 /\
  occurrences threads_init (calls r) = 1%nat /\
  occurrences crypto_init (calls r) = 1%nat /\
  occurrences socket_init (calls r) = 1%nat /\
  occurrences socket_cleanup (calls r) = 1%nat /\
  occurrences crypto_finalize (calls r) = 1%nat /\
  occurrences threads_finalize (calls r) = 1%nat /\
  collaborator_calls (calls r) =
    [threads_init; crypto_init; socket_init;
     crypto_finalize; socket_cleanup; threads_finalize].
Proof.
  intros HN Hmax Hli Hlf Hi Hf Hok H0.
  destruct inits as [| [k E | d] inits'].
  - cbn [length] in Hli. lia.
  - pose proof (bring_up_succeeds E (Hok k E eq_refl)) as Hup.
    inversion Hi as [| c' cs' _ Hi']; subst.
    cbn [length] in *. rewrite Nat2Z.inj_succ in Hmax.
    set (g1 := Globals 1 0).
    destruct (sequence_inits have inits' g1 Hi' ltac:(cbn; lia) ltac:(cbn; lia))
      as (I1 & Ir & It & _).
    set (g2 := after (sequence have inits' g1)) in *.
    cbn [g1 _ssh_initialized _ssh_init_ret] in I1, Ir.
    destruct (sequence_finalizes have fins g2 Hf Ir ltac:(lia) ltac:(lia))
      as [T1 Tt].
    rewrite Hlf in T1, Tt.
    replace (Z.of_nat (S (length inits')) =? _ssh_initialized g2) with true
      in Tt by (symmetry; apply Z.eqb_eq; lia).
    cbv zeta. rewrite <- app_comm_cons, sequence_cons, sequence_app.
    cbn [step]. rewrite _ssh_init_first, Hup by exact H0.
    cbn [after calls fst snd]. fold g1. fold g2.
    assert (Hcalls :
      collaborator_calls
        (locked have k [threads_init; crypto_init; socket_init]
           ++ calls (sequence have inits' g1)
           ++ calls (sequence have fins g2)) =
      [threads_init; crypto_init; socket_init;
       crypto_finalize; socket_cleanup; threads_finalize]).
    { now rewrite !collaborator_calls_app, collaborator_calls_locked, It, Tt. }
    repeat apply conj;
      try (rewrite occurrences_collaborator by reflexivity;
           rewrite Hcalls; reflexivity).
    + lia.
    + exact Hcalls.
  - inversion Hi as [| c' cs' Hc _]. contradiction.
Qed.

Lemma balanced_epoch_witness :
  let ok := Collaborators 0 0 0 in
  let r := sequence true
             ([init 1 ok; init 0 ok] ++ [finalize 0; finalize 1]) globals0 in
  _ssh_initialized (after r) = 0 /\
  occurrences threads_init (calls r) = 1%nat /\
  occurrences crypto_init (calls r) = 1%nat /\
  occurrences socket_init (calls r) = 1%nat /\
  occurrences socket_cleanup (calls r) = 1%nat /\
  occurrences crypto_finalize (calls r) = 1%nat /\
  occurrences threads_finalize (calls r) = 1%nat /\
  collaborator_calls (calls r) =
    [threads_init; crypto_init; socket_init;
     crypto_finalize; socket_cleanup; threads_finalize].
Proof.
  apply (balanced_epoch true 2
           [init 1 (Collaborators 0 0 0); init 0 (Collaborators 0 0 0)]
           [finalize 0; finalize 1] globals0).
  - lia.
  - unfold INT_MAX. lia.
  - reflexivity.
  - reflexivity.
  - repeat constructor.
  - repeat constructor.
  - intros k E H. injection H as <- <-. repeat split; reflexivity.
  - reflexivity.
Defined.

(** C7 as stated fails for N = 0: with no call at all the counter is at 0
    and no collaborator has been called, rather than each once. *)
Lemma balanced_epoch_empty :
  let r := sequence true ([] ++ []) globals0 in
  _ssh_initialized (after r) = 0 /\
  occurrences threads_init (calls r) = 0%nat /\
  occurrences socket_cleanup (calls r) = 0%nat /\
  occurrences threads_init (calls r) <> 1%nat.
Proof. repeat split; vm_compute; discriminate. Qed.

(** The bound on the number of init calls is needed: the init call after
    INT_MAX of them finds the counter at INT_MAX, wraps it, and brings up a
    second time. *)
Lemma epoch_overflow (have : bool) (inits : list api) (g : globals) :
  Forall is_init inits ->
  Forall (fun c => forall k E, c = init k E -> succeeds E) inits ->
  _ssh_initialized g = 0 ->
  Z.of_nat (length inits) = INT_MAX + 1 ->
  let r := sequence have inits g in
  _ssh_initialized (after r) = INT_MIN /\
  occurrences threads_init (calls r) = 2%nat.
Proof.
  intros Hi Hok H0 Hlen.
  destruct inits as [| c inits']; [cbn in Hlen; int_arith |].
  destruct (@exists_last _ inits') as (mid & last & ->).
  { intros ->. cbn in Hlen. int_arith. }
  cbn [length] in Hlen. rewrite length_app, Nat2Z.inj_succ, Nat2Z.inj_add in Hlen.
  cbn [length] in Hlen.
  inversion Hi as [| ? ? Hc Hi']; subst.
  inversion Hok as [| ? ? Hokc Hok']; subst.
  apply Forall_app in Hi' as [Him Hil]. apply Forall_app in Hok' as [_ Hokl].
  inversion Hil as [| ? ? Hl _]; subst. inversion Hokl as [| ? ? Hokl' _]; subst.
  destruct c as [k E | ?]; [| contradiction].
  destruct last as [k' E' | ?]; [| contradiction].
  pose proof (bring_up_succeeds E (Hokc k E eq_refl)) as Hup.
  pose proof (bring_up_succeeds E' (Hokl' k' E' eq_refl)) as Hup'.
  set (g1 := Globals 1 0).
  destruct (sequence_inits have mid g1 Him ltac:(cbn; lia) ltac:(cbn; lia))
    as (I1 & Ir & It & _).
  set (g2 := after (sequence have mid g1)) in *.
  cbn [g1 _ssh_initialized] in I1.
  assert (H2 : _ssh_initialized g2 = INT_MAX) by lia.
  cbv zeta.
  rewrite sequence_cons, sequence_app, sequence_cons.
  cbn [step sequence ret]. rewrite (_ssh_init_first have E k g H0), Hup.
  cbn [after calls fst snd]. fold g1. fold g2.
  rewrite occurrences_collaborator by reflexivity.
  rewrite !collaborator_calls_app, It, collaborator_calls_locked.
  rewrite _ssh_init_eq, H2, Hup'.
  change (int_wrap (INT_MAX + 1)) with INT_MIN.
  cbn. rewrite collaborator_calls_locked. split; reflexivity.
Qed.

End InitTheory.

(** ** The pthread backend and the lock API *)

Section PthreadTheory.

Import Pthread.
Local Open Scope proc_scope.

Ltac steps :=
  cbv beta iota zeta delta
    [ssh_pthread_mutex_init ssh_pthread_mutex_destroy ssh_pthread_mutex_lock
     ssh_pthread_mutex_unlock ssh_static_mutex_init ssh_mutex_init
     ssh_mutex_lock ssh_mutex_unlock ssh_mutex_destroy
     Pthread.bind Pthread.ret Pthread.when exit load store
     call_pthread_mutexattr_init call_pthread_mutexattr_settype call_malloc
     call_free call_pthread_mutex_init call_pthread_mutex_destroy
     call_pthread_mutex_lock call_pthread_mutex_unlock
     cells blocks mutexes negb];
  cbn [app];
  rewrite ?lookup_insert_eq; cbn [default from_option id].

Lemma ssh_pthread_mutex_init_eq (L : libc) (mutex : Z) (m : mem) :
  ssh_pthread_mutex_init L mutex m =
  let a := mutexattr_init_status L in
  let s := mutexattr_settype_status L in
  let p := malloc_result L in
  let rc := mutex_init_status L p in
  if negb (a =? 0) then Exits a [pthread_mutexattr_init]
  else if negb (s =? 0)
  then Exits s [pthread_mutexattr_init; pthread_mutexattr_settype]
  else if p =? NULL
  then Returns ENOMEM (Mem (<[mutex := p]> (cells m)) (blocks m) (mutexes m))
         [pthread_mutexattr_init; pthread_mutexattr_settype; malloc p]
  else if rc =? 0
  then Returns rc
         (Mem (<[mutex := p]> (cells m)) ({[p]} ∪ blocks m) ({[p]} ∪ mutexes m))
         [pthread_mutexattr_init; pthread_mutexattr_settype; malloc p;
          pthread_mutex_init p]
  else Returns rc
         (Mem (<[mutex := NULL]> (<[mutex := p]> (cells m)))
              (({[p]} ∪ blocks m) ∖ {[p]}) (mutexes m))
         [pthread_mutexattr_init; pthread_mutexattr_settype; malloc p;
          pthread_mutex_init p; free p].
Proof.
  destruct m as [c b x]. steps.
  destruct (mutexattr_init_status L =? 0); [| reflexivity]. steps.
  destruct (mutexattr_settype_status L =? 0); [| reflexivity]. steps.
  destruct (malloc_result L =? NULL) eqn:Hp; steps; rewrite ?Hp; steps.
  - reflexivity.
  - destruct (mutex_init_status L (malloc_result L) =? 0); steps; reflexivity.
Qed.

Lemma ssh_static_mutex_init_eq (L : libc) (mutex : Z) (m : mem) :
  ssh_static_mutex_init L mutex m =
  let a := mutexattr_init_status L in
  let s := mutexattr_settype_status L in
  let rc := mutex_init_status L mutex in
  if mutex =? NULL then Exits EINVAL []
  else if negb (a =? 0) then Exits a [pthread_mutexattr_init]
  else if negb (s =? 0)
  then Exits s [pthread_mutexattr_init; pthread_mutexattr_settype]
  else if rc =? 0
  then Returns tt (Mem (cells m) (blocks m) ({[mutex]} ∪ mutexes m))
         [pthread_mutexattr_init; pthread_mutexattr_settype;
          pthread_mutex_init mutex]
  else Exits rc
         [pthread_mutexattr_init; pthread_mutexattr_settype;
          pthread_mutex_init mutex].
Proof.
  destruct m as [c b x]. steps.
  destruct (mutex =? NULL); [reflexivity |]. steps.
  destruct (mutexattr_init_status L =? 0); [| reflexivity]. steps.
  destruct (mutexattr_settype_status L =? 0); [| reflexivity]. steps.
  destruct (mutex_init_status L mutex =? 0); steps; reflexivity.
Qed.

Lemma ssh_mutex_init_eq (L : libc) (mutex : Z) (m : mem) :
  ssh_mutex_init L mutex m =
  if mutex =? NULL then Exits EINVAL []
  else match ssh_pthread_mutex_init L mutex m with
       | Returns rc m' t => if rc =? 0 then Returns tt m' t else Exits rc t
       | Exits s t => Exits s t
       end.
Proof.
  unfold ssh_mutex_init, Pthread.bind, Pthread.when, exit, Pthread.ret.
  destruct (mutex =? NULL); [reflexivity |]. cbn [app].
  destruct (ssh_pthread_mutex_init L mutex m) as [rc m' t | s t]; [| reflexivity].
  destruct (rc =? 0); cbn [negb]; now rewrite app_nil_r.
Qed.

Lemma ssh_mutex_destroy_eq (L : libc) (mutex : Z) (m : mem) :
  ssh_mutex_destroy L mutex m =
  let p := pointee mutex m in
  let rc := mutex_destroy_status L p in
  if mutex =? NULL then Exits EINVAL []
  else if rc =? 0
  then Returns tt
         (Mem (<[mutex := NULL]> (cells m)) (blocks m ∖ {[p]})
              (mutexes m ∖ {[p]}))
         [pthread_mutex_destroy p; free p]
  else Exits rc [pthread_mutex_destroy p; free p].
Proof.
  destruct m as [c b x]. unfold pointee. steps.
  destruct (mutex =? NULL); [reflexivity |]. steps.
  destruct (mutex_destroy_status L (default NULL (c !! mutex)) =? 0);
    steps; reflexivity.
Qed.

(** The backend lock operation is reached with the address of the
    parameter, so what it dereferences is the handle, not its pointee. *)
Lemma ssh_mutex_lock_eq (L : libc) (param mutex : Z) (m : mem) :
  ssh_mutex_lock L param mutex m =
  let rc := mutex_lock_status L mutex in
  if mutex =? NULL then Exits EINVAL []
  else if rc =? 0
  then Returns tt (Mem (<[param := mutex]> (cells m)) (blocks m) (mutexes m))
         [pthread_mutex_lock mutex]
  else Exits rc [pthread_mutex_lock mutex].
Proof.
  destruct m as [c b x]. steps.
  destruct (mutex =? NULL); [reflexivity |]. steps.
  destruct (mutex_lock_status L mutex =? 0); steps; reflexivity.
Qed.

Lemma ssh_mutex_unlock_eq (L : libc) (param mutex : Z) (m : mem) :
  ssh_mutex_unlock L param mutex m =
  let rc := mutex_unlock_status L mutex in
  if mutex =? NULL then Exits EINVAL []
  else if rc =? 0
  then Returns tt (Mem (<[param := mutex]> (cells m)) (blocks m) (mutexes m))
         [pthread_mutex_unlock mutex]
  else Exits rc [pthread_mutex_unlock mutex].
Proof.
  destruct m as [c b x]. steps.
  destruct (mutex =? NULL); [reflexivity |]. steps.
  destruct (mutex_unlock_status L mutex =? 0); steps; reflexivity.
Qed.

(** C9. Each of the four operations of the dynamic lock API, called with a
    null handle, ends the process with status EINVAL before any other call
    is made; it does not return. *)
Theorem null_handle_is_fatal (L : libc) (param : Z) (m : mem) :
  ssh_mutex_init L NULL m = Exits EINVAL [] /\
  ssh_mutex_lock L param NULL m = Exits EINVAL [] /\
  ssh_mutex_unlock L param NULL m = Exits EINVAL [] /\
  ssh_mutex_destroy L NULL m = Exits EINVAL [].
Proof.
  rewrite ssh_mutex_init_eq, ssh_mutex_lock_eq, ssh_mutex_unlock_eq,
    ssh_mutex_destroy_eq.
  repeat split; reflexivity.
Qed.

(** C10. Once the attribute is set up, a failed creation leaves the handle
    empty: when [malloc] returns NULL, [ssh_pthread_mutex_init] returns
    ENOMEM with the handle's pointee NULL; when the construction of the
    mutex fails, it frees the block, sets the pointee to NULL and returns
    the status of the construction. No other cell is touched and no mutex
    is left behind. *)
Theorem ssh_pthread_mutex_init_failure_leaves_null
    (L : libc) (mutex : Z) (m : mem) :
  mutexattr_init_status L = 0 ->
  mutexattr_settype_status L = 0 ->
  let p := malloc_result L in
  let o := ssh_pthread_mutex_init L mutex m in
  (p = NULL ->
     exists m',
       o = Returns ENOMEM m'
             [pthread_mutexattr_init; pthread_mutexattr_settype; malloc NULL] /\
       pointee mutex m' = NULL /\
       (forall a, a <> mutex -> cells m' !! a = cells m !! a) /\
       blocks m' = blocks m /\ mutexes m' = mutexes m) /\
  (p <> NULL -> mutex_init_status L p <> 0 ->
     exists m',
       o = Returns (mutex_init_status L p) m'
             [pthread_mutexattr_init; pthread_mutexattr_settype; malloc p;
              pthread_mutex_init p; free p] /\
       pointee mutex m' = NULL /\
       (forall a, a <> mutex -> cells m' !! a = cells m !! a) /\
       (p ∉ blocks m') /\ mutexes m' = mutexes m).
Proof.
  intros Ha Hs p o. subst p o. rewrite ssh_pthread_mutex_init_eq, Ha, Hs.
  cbv zeta. change (negb (0 =? 0)) with false. cbv iota. split.
  - intros Hp. rewrite Hp. change (NULL =? NULL) with true. cbv iota.
    eexists. split; [reflexivity |]. unfold pointee. cbn [cells blocks mutexes].
    rewrite lookup_insert_eq. split_and!; try reflexivity.
    intros a Hne. now rewrite lookup_insert_ne.
  - intros Hp Hrc.
    destruct (Z.eqb_spec (malloc_result L) NULL) as [| _]; [contradiction |].
    destruct (Z.eqb_spec (mutex_init_status L (malloc_result L)) 0) as [| _];
      [contradiction |].
    eexists. split; [reflexivity |]. unfold pointee. cbn [cells blocks mutexes].
    rewrite lookup_insert_eq. split_and!; try reflexivity.
    + intros a Hne. now rewrite !lookup_insert_ne.
    + rewrite elem_of_difference, elem_of_singleton. tauto.
Qed.

Lemma ssh_pthread_mutex_init_failure_leaves_null_witness :
  (returned (ssh_pthread_mutex_init libc_no_memory 100 mem0) = Some ENOMEM /\
   (pointee 100 <$> memory (ssh_pthread_mutex_init libc_no_memory 100 mem0))
     = Some NULL) /\
  (returned (ssh_pthread_mutex_init (libc_no_mutex 200 11) 100 mem0) = Some 11 /\
   (pointee 100 <$> memory (ssh_pthread_mutex_init (libc_no_mutex 200 11) 100 mem0))
     = Some NULL /\
   calls (ssh_pthread_mutex_init (libc_no_mutex 200 11) 100 mem0) =
     [pthread_mutexattr_init; pthread_mutexattr_settype; malloc 200;
      pthread_mutex_init 200; free 200]).
Proof.
  split.
  - destruct (ssh_pthread_mutex_init_failure_leaves_null
                libc_no_memory 100 mem0 eq_refl eq_refl) as [H _].
    destruct (H eq_refl) as (m' & -> & Hp & _). cbn. now rewrite Hp.
  - destruct (ssh_pthread_mutex_init_failure_leaves_null
                (libc_no_mutex 200 11) 100 mem0 eq_refl eq_refl) as [_ H].
    destruct (H ltac:(discriminate) ltac:(discriminate)) as (m' & -> & Hp & _).
    cbn. now rewrite Hp.
Defined.

(** C8, as amended. A failure of [pthread_mutexattr_init] or of
    [pthread_mutexattr_settype] ends the process at once, with the failing
    status, in the backend's [ssh_pthread_mutex_init], in
    [ssh_static_mutex_init] and in [ssh_mutex_init]. A failure of the
    construction of the mutex ends the process in [ssh_static_mutex_init]
    and in [ssh_mutex_init]; the backend's [ssh_pthread_mutex_init] returns
    it to its caller as its status. *)
Theorem creation_failures (L : libc) (mutex : Z) (m : mem) :
  mutex <> NULL ->
  let a := mutexattr_init_status L in
  let s := mutexattr_settype_status L in
  let p := malloc_result L in
  (a <> 0 ->
     ssh_pthread_mutex_init L mutex m = Exits a [pthread_mutexattr_init] /\
     ssh_static_mutex_init L mutex m = Exits a [pthread_mutexattr_init] /\
     ssh_mutex_init L mutex m = Exits a [pthread_mutexattr_init]) /\
  (a = 0 -> s <> 0 ->
     let t := [pthread_mutexattr_init; pthread_mutexattr_settype] in
     ssh_pthread_mutex_init L mutex m = Exits s t /\
     ssh_static_mutex_init L mutex m = Exits s t /\
     ssh_mutex_init L mutex m = Exits s t) /\
  (a = 0 -> s = 0 -> mutex_init_status L mutex <> 0 ->
     ssh_static_mutex_init L mutex m =
       Exits (mutex_init_status L mutex)
         [pthread_mutexattr_init; pthread_mutexattr_settype;
          pthread_mutex_init mutex]) /\
  (a = 0 -> s = 0 -> p <> NULL -> mutex_init_status L p <> 0 ->
     let t := [pthread_mutexattr_init; pthread_mutexattr_settype; malloc p;
               pthread_mutex_init p; free p] in
     returned (ssh_pthread_mutex_init L mutex m) = Some (mutex_init_status L p) /\
     calls (ssh_pthread_mutex_init L mutex m) = t /\
     ssh_mutex_init L mutex m = Exits (mutex_init_status L p) t).
Proof.
  intros Hm a s p. subst a s p.
  rewrite ssh_mutex_init_eq, ssh_static_mutex_init_eq, ssh_pthread_mutex_init_eq.
  cbv zeta.
  destruct (Z.eqb_spec mutex NULL) as [| _]; [contradiction |].
  destruct (Z.eqb_spec (mutexattr_init_status L) 0) as [Ha | Ha];
    destruct (Z.eqb_spec (mutexattr_settype_status L) 0) as [Hs | Hs];
    destruct (Z.eqb_spec (malloc_result L) NULL) as [Hp | Hp];
    destruct (Z.eqb_spec (mutex_init_status L mutex) 0) as [Hx | Hx];
    destruct (Z.eqb_spec (mutex_init_status L (malloc_result L)) 0) as [Hy | Hy];
    cbn [negb]; repeat split; intros; try contradiction; try congruence;
    try (destruct (Z.eqb_spec (mutexattr_init_status L) 0); [contradiction | reflexivity]);
    try (destruct (Z.eqb_spec (mutexattr_settype_status L) 0); [contradiction | reflexivity]);
    try (destruct (Z.eqb_spec (mutex_init_status L (malloc_result L)) 0); [contradiction | reflexivity]).
Qed.

Lemma creation_failures_witness :
  ssh_pthread_mutex_init (libc_no_attr 12) 100 mem0
    = Exits 12 [pthread_mutexattr_init] /\
  ssh_static_mutex_init (libc_no_settype 22) 100 mem0
    = Exits 22 [pthread_mutexattr_init; pthread_mutexattr_settype] /\
  ssh_static_mutex_init (libc_no_mutex 200 11) 100 mem0
    = Exits 11 [pthread_mutexattr_init; pthread_mutexattr_settype;
                pthread_mutex_init 100] /\
  returned (ssh_pthread_mutex_init (libc_no_mutex 200 11) 100 mem0) = Some 11 /\
  ssh_mutex_init (libc_no_mutex 200 11) 100 mem0
    = Exits 11 [pthread_mutexattr_init; pthread_mutexattr_settype; malloc 200;
                pthread_mutex_init 200; free 200].
Proof.
  assert (Hm : 100 <> NULL) by discriminate.
  pose proof (creation_failures (libc_no_attr 12) 100 mem0 Hm) as (H1 & _).
  pose proof (creation_failures (libc_no_settype 22) 100 mem0 Hm) as (_ & H2 & _).
  pose proof (creation_failures (libc_no_mutex 200 11) 100 mem0 Hm)
    as (_ & _ & H3 & H4).
  destruct (H1 ltac:(discriminate)) as (E1 & _).
  destruct (H2 eq_refl ltac:(discriminate)) as (_ & E2 & _).
  pose proof (H3 eq_refl eq_refl ltac:(discriminate)) as E3.
  destruct (H4 eq_refl eq_refl ltac:(discriminate) ltac:(discriminate))
    as (E4 & _ & E5).
  repeat split; assumption.
Defined.

(** C8 as stated fails in the backend: when the construction of the mutex
    fails with status 11, [ssh_pthread_mutex_init] does not end the
    process, it returns 11 to its caller. *)
Lemma ssh_pthread_mutex_init_returns_construction_failure :
  let o := ssh_pthread_mutex_init (libc_no_mutex 200 11) 100 mem0 in
  mutex_init_status (libc_no_mutex 200 11) 200 <> 0 /\
  exit_status o = None /\
  returned o = Some 11.
Proof. repeat split; vm_compute; discriminate. Qed.

(** The backend lock and unlock operations are applied to the address the
    handle itself has, whatever it points to; destroy is applied to the
    pointee. *)
Lemma ssh_mutex_lock_applied_to_handle (L : libc) (param mutex : Z) (m : mem) :
  mutex <> NULL ->
  locked_at (calls (ssh_mutex_lock L param mutex m)) = [mutex] /\
  locked_at (calls (ssh_mutex_unlock L param mutex m)) = [mutex].
Proof.
  intros Hm. rewrite ssh_mutex_lock_eq, ssh_mutex_unlock_eq. cbv zeta.
  destruct (Z.eqb_spec mutex NULL) as [| _]; [contradiction |].
  destruct (mutex_lock_status L mutex =? 0), (mutex_unlock_status L mutex =? 0);
    split; reflexivity.
Qed.

Lemma ssh_mutex_destroy_applied_to_pointee (L : libc) (mutex : Z) (m : mem) :
  mutex <> NULL ->
  calls (ssh_mutex_destroy L mutex m) =
    [pthread_mutex_destroy (pointee mutex m); free (pointee mutex m)].
Proof.
  intros Hm. rewrite ssh_mutex_destroy_eq. cbv zeta.
  destruct (Z.eqb_spec mutex NULL) as [| _]; [contradiction |].
  destruct (mutex_destroy_status L (pointee mutex m) =? 0); reflexivity.
Qed.

(** C3 does not hold of the code. A handle at address 100 is given, by
    [ssh_mutex_init], the block at 200 with the mutex constructed in it.
    [ssh_mutex_lock] and [ssh_mutex_unlock] on that handle apply the
    backend operation to address 100, where no mutex was constructed;
    [ssh_mutex_destroy] applies it to 200. *)
Theorem ssh_mutex_lock_misses_pointee :
  exists m1,
    ssh_mutex_init (libc_ok 200) 100 mem0 =
      Returns tt m1 [pthread_mutexattr_init; pthread_mutexattr_settype;
                     malloc 200; pthread_mutex_init 200] /\
    pointee 100 m1 = 200 /\
    200 ∈ mutexes m1 /\
    (100 ∉ mutexes m1) /\
    calls (ssh_mutex_lock (libc_ok 200) 4096 100 m1) = [pthread_mutex_lock 100] /\
    calls (ssh_mutex_unlock (libc_ok 200) 4096 100 m1) = [pthread_mutex_unlock 100] /\
    locked_at (calls (ssh_mutex_lock (libc_ok 200) 4096 100 m1)) <> [pointee 100 m1] /\
    locked_at (calls (ssh_mutex_unlock (libc_ok 200) 4096 100 m1)) <> [pointee 100 m1] /\
    calls (ssh_mutex_destroy (libc_ok 200) 100 m1) =
      [pthread_mutex_destroy 200; free 200].
Proof.
  exists (Mem (<[100 := 200]> ∅) ({[200]} ∪ ∅) ({[200]} ∪ ∅)).
  assert (Hp : pointee 100 (Mem (<[100 := 200]> ∅) ({[200]} ∪ ∅) ({[200]} ∪ ∅))
               = 200).
  { unfold pointee. cbn [cells]. now rewrite lookup_insert_eq. }
  rewrite ssh_mutex_init_eq, ssh_pthread_mutex_init_eq.
  rewrite ssh_mutex_lock_eq, ssh_mutex_unlock_eq, ssh_mutex_destroy_eq, Hp.
  cbn [mutexes].
  split_and!; try reflexivity; discriminate.
Qed.

End PthreadTheory.

(** ** More on the lifecycle counter: entry points, hooks and epochs *)

Section InitEntryPoints.

Import Init.
Local Open Scope prog_scope.

(** The load hooks in terms of the calls they wrap. *)
Lemma auto_init_eq (have : bool) (E : collaborators) (g : globals) :
  auto_init have E g =
  let r := _ssh_init have E 1 g in
  (tt, after r, calls r ++ (if status r <? 0 then [fprintf_stderr] else [])).
Proof.
  unfold auto_init, bind, when, call, ret.
  destruct (_ssh_init have E 1 g) as [[rc g1] t]. cbn [status after calls fst snd].
  destruct (rc <? 0); reflexivity.
Qed.

Lemma auto_finalize_eq (have : bool) (g : globals) :
  auto_finalize have g =
  let r := _ssh_finalize have 1 g in
  (tt, after r, calls r ++ (if status r <? 0 then [fprintf_stderr] else [])).
Proof.
  unfold auto_finalize, bind, when, call, ret.
  destruct (_ssh_finalize have 1 g) as [[rc g1] t]. cbn [status after calls fst snd].
  destruct (rc <? 0); reflexivity.
Qed.

Lemma _ssh_finalize_status (have : bool) (d : Z) (g : globals) :
  status (_ssh_finalize have d g) = 0.
Proof.
  rewrite _ssh_finalize_eq. cbv zeta. now destruct (_ssh_initialized g =? 1).
Qed.

(** The calls of [_ssh_init] and [_ssh_finalize] are collaborator calls
    inside the lock. *)
Lemma _ssh_init_calls_locked (have : bool) (E : collaborators) (k : Z) (g : globals) :
  calls (_ssh_init have E k g) =
  locked have k (collaborator_calls (calls (_ssh_init have E k g))).
Proof.
  rewrite _ssh_init_eq. cbv zeta.
  destruct (1 <? int_wrap (_ssh_initialized g + 1)); unfold bring_up;
    [| destruct (threads_status E =? 0), (crypto_status E =? 0)];
    cbn [negb calls snd]; now rewrite collaborator_calls_locked.
Qed.

Lemma _ssh_finalize_calls_locked (have : bool) (d : Z) (g : globals) :
  calls (_ssh_finalize have d g) =
  locked have d (collaborator_calls (calls (_ssh_finalize have d g))).
Proof.
  rewrite _ssh_finalize_eq. cbv zeta.
  destruct (_ssh_initialized g =? 1); [destruct (_ssh_init_ret g <? 0) |];
    cbn [calls snd]; now rewrite collaborator_calls_locked.
Qed.

Lemma occurrences_app (e : extern) (t1 t2 : list extern) :
  occurrences e (t1 ++ t2) = (occurrences e t1 + occurrences e t2)%nat.
Proof. unfold occurrences. apply count_occ_app. Qed.

Lemma occurrences_not_collaborator (e : extern) (t : list extern) :
  is_collaborator e = false -> occurrences e (collaborator_calls t) = 0%nat.
Proof.
  intros He. unfold occurrences, collaborator_calls.
  induction t as [| x t IH]; [reflexivity |].
  cbn [List.filter]. destruct (is_collaborator x) eqn:Hx; [| exact IH].
  cbn [count_occ]. destruct (extern_eq_dec x e) as [-> | _]; [congruence | exact IH].
Qed.

(** X1. With pthreads, [ssh_init] and [ssh_finalize] take [ssh_init_mutex]
    before anything else and release it after everything else, once each,
    on every path; all calls in between are collaborator calls. *)
Theorem explicit_calls_hold_the_lock (E : collaborators) (g : globals) :
  calls (ssh_init true E g) =
    mutex_lock :: collaborator_calls (calls (ssh_init true E g))
      ++ [mutex_unlock] /\
  calls (ssh_finalize true g) =
    mutex_lock :: collaborator_calls (calls (ssh_finalize true g))
      ++ [mutex_unlock].
Proof.
  unfold ssh_init, ssh_finalize. split.
  - now rewrite _ssh_init_calls_locked at 1.
  - now rewrite _ssh_finalize_calls_locked at 1.
Qed.

(** X2. The load hooks [auto_init] and [auto_finalize] never lock or
    unlock [ssh_init_mutex], with or without pthreads. *)
Theorem load_hooks_never_lock (have : bool) (E : collaborators) (g : globals) :
  occurrences mutex_lock (calls (auto_init have E g)) = 0%nat /\
  occurrences mutex_unlock (calls (auto_init have E g)) = 0%nat /\
  occurrences mutex_lock (calls (auto_finalize have g)) = 0%nat /\
  occurrences mutex_unlock (calls (auto_finalize have g)) = 0%nat.
Proof.
  rewrite auto_init_eq, auto_finalize_eq. cbv zeta. cbn [calls snd].
  rewrite !occurrences_app, _ssh_init_calls_locked, _ssh_finalize_calls_locked.
  unfold locked. change ((1 =? 0) && have) with false. cbv iota.
  rewrite !app_nil_r. cbn [app].
  rewrite !occurrences_not_collaborator by reflexivity.
  destruct (status (_ssh_init have E 1 g) <? 0),
    (status (_ssh_finalize have 1 g) <? 0); repeat split; reflexivity.
Qed.

(** X3. [auto_init] prints its error message exactly when [_ssh_init]
    returned a negative status; a positive failure status of a collaborator
    is cached but not reported. It leaves the globals as [_ssh_init] did. *)
Theorem auto_init_reports_negative_only
    (have : bool) (E : collaborators) (g : globals) :
  occurrences fprintf_stderr (calls (auto_init have E g)) =
    (if status (_ssh_init have E 1 g) <? 0 then 1%nat else 0%nat) /\
  after (auto_init have E g) = after (_ssh_init have E 1 g).
Proof.
  rewrite auto_init_eq. cbv zeta. cbn [calls after fst snd]. split; [| reflexivity].
  rewrite occurrences_app, _ssh_init_calls_locked.
  unfold locked. change ((1 =? 0) && have) with false. cbv iota.
  rewrite app_nil_r. cbn [app].
  rewrite occurrences_not_collaborator by reflexivity.
  now destruct (status (_ssh_init have E 1 g) <? 0).
Qed.

(** X4. [auto_finalize] never prints its error message: [_ssh_finalize]
    returns 0 in every state, so the hook makes exactly the calls of
    [_ssh_finalize(1)] and leaves the globals as it did. *)
Theorem auto_finalize_never_reports (have : bool) (g : globals) :
  calls (auto_finalize have g) = calls (_ssh_finalize have 1 g) /\
  occurrences fprintf_stderr (calls (auto_finalize have g)) = 0%nat /\
  after (auto_finalize have g) = after (_ssh_finalize have 1 g).
Proof.
  rewrite auto_finalize_eq. cbv zeta. rewrite _ssh_finalize_status.
  change (0 <? 0) with false. cbv iota. cbn [calls after fst snd].
  rewrite app_nil_r. split; [reflexivity | split; [| reflexivity]].
  rewrite _ssh_finalize_calls_locked.
  unfold locked. change ((1 =? 0) && have) with false. cbv iota.
  rewrite app_nil_r. cbn [app].
  now apply occurrences_not_collaborator.
Qed.

End InitEntryPoints.

Section InitEpochs.

Import Init.
Local Open Scope prog_scope.

(** X5. A finalize call that finds the counter at n with 1 < n <= INT_MAX
    takes it to n - 1, leaves the cached result, calls no collaborator and
    returns 0: teardown waits for the last finalize. *)
Theorem finalize_with_outstanding_inits
    (have : bool) (destructor : Z) (g : globals) :
  1 < _ssh_initialized g <= INT_MAX ->
  let r := _ssh_finalize have destructor g in
  _ssh_initialized (after r) = _ssh_initialized g - 1 /\
  _ssh_init_ret (after r) = _ssh_init_ret g /\
  collaborator_calls (calls r) = [] /\
  status r = 0.
Proof.
  intros Hn r. subst r. rewrite _ssh_finalize_earlier by exact Hn.
  cbn [status after calls fst snd _ssh_initialized _ssh_init_ret].
  rewrite collaborator_calls_locked. repeat split; reflexivity.
Qed.

Lemma finalize_with_outstanding_inits_witness :
  let r := _ssh_finalize true 0 (Globals 3 (-1)) in
  _ssh_initialized (after r) = 2 /\
  _ssh_init_ret (after r) = -1 /\
  collaborator_calls (calls r) = [] /\
  status r = 0.
Proof.
  apply (finalize_with_outstanding_inits true 0 (Globals 3 (-1))).
  unfold INT_MAX. simpl. lia.
Defined.

(** X6. One init followed by one finalize, started with the counter at 0,
    ends with the counter at 0 whatever bring-up returned; the result of
    the bring-up stays cached; the teardown collaborators are called
    exactly when that result is not negative. *)
Theorem single_epoch_returns_to_idle
    (have : bool) (E : collaborators) (k d : Z) (g : globals) :
  _ssh_initialized g = 0 ->
  let i := _ssh_init have E k g in
  let f := _ssh_finalize have d (after i) in
  _ssh_initialized (after f) = 0 /\
  _ssh_init_ret (after f) = status i /\
  collaborator_calls (calls f) =
    (if status i <? 0 then []
     else [crypto_finalize; socket_cleanup; threads_finalize]).
Proof.
  intros H0 i f. subst i f. rewrite _ssh_init_first by exact H0.
  cbn [status after fst snd]. rewrite _ssh_finalize_last by reflexivity.
  cbn [after calls fst snd _ssh_initialized _ssh_init_ret].
  rewrite collaborator_calls_locked.
  destruct (fst (bring_up E) <? 0); repeat split; reflexivity.
Qed.

Lemma single_epoch_returns_to_idle_witness :
  let i := _ssh_init true (Collaborators 0 0 (-1)) 0 globals0 in
  let f := _ssh_finalize true 0 (after i) in
  _ssh_initialized (after f) = 0 /\
  _ssh_init_ret (after f) = -1 /\
  collaborator_calls (calls f) = [].
Proof.
  apply (single_epoch_returns_to_idle true (Collaborators 0 0 (-1)) 0 0 globals0).
  reflexivity.
Defined.

(** X7. After an epoch has ended, the next init behaves exactly as the
    first init ever: the bring-up is attempted again with the same status,
    calls and globals, whatever the ended epoch returned and cached. *)
Theorem ended_epoch_leaves_no_trace
    (have : bool) (E1 E2 : collaborators) (k1 d k2 : Z) (g : globals) :
  _ssh_initialized g = 0 ->
  let f := _ssh_finalize have d (after (_ssh_init have E1 k1 g)) in
  _ssh_init have E2 k2 (after f) = _ssh_init have E2 k2 globals0.
Proof.
  intros H0 f. subst f. rewrite (_ssh_init_first have E1 k1 g H0).
  cbn [after fst snd]. rewrite _ssh_finalize_last by reflexivity.
  cbn [after fst snd]. now rewrite !_ssh_init_first by reflexivity.
Qed.

Lemma ended_epoch_leaves_no_trace_witness :
  let f := _ssh_finalize true 0
             (after (_ssh_init true (Collaborators 0 (-1) 0) 0 globals0)) in
  _ssh_init true (Collaborators 0 0 0) 0 (after f) =
    (0, Globals 1 0,
     [mutex_lock; threads_init; crypto_init; socket_init; mutex_unlock]).
Proof.
  cbv zeta.
  rewrite (ended_epoch_leaves_no_trace true (Collaborators 0 (-1) 0)
             (Collaborators 0 0 0) 0 0 0 globals0 eq_refl).
  reflexivity.
Defined.

(** X8. Within one epoch of at most INT_MAX init calls, every init call
    returns the status the first one returned. *)
Theorem epoch_callers_agree
    (have : bool) (k : Z) (E : collaborators) (cs : list api) (g : globals) :
  Forall is_init cs ->
  _ssh_initialized g = 0 ->
  Z.of_nat (length cs) < INT_MAX ->
  results have (init k E :: cs) g =
    repeat (status (_ssh_init have E k g)) (S (length cs)).
Proof.
  intros Hall H0 Hlen. rewrite epoch_same_result by assumption.
  now rewrite _ssh_init_first by exact H0.
Qed.

Lemma epoch_callers_agree_witness :
  results true
    [init 0 (Collaborators 0 (-1) 0); init 0 (Collaborators 0 0 0);
     init 1 (Collaborators 7 7 7)] globals0 = [-1; -1; -1].
Proof.
  rewrite (epoch_callers_agree true 0 (Collaborators 0 (-1) 0)
             [init 0 (Collaborators 0 0 0); init 1 (Collaborators 7 7 7)]
             globals0).
  - reflexivity.
  - repeat constructor.
  - reflexivity.
  - unfold INT_MAX. simpl. lia.
Defined.

Lemma count_inits_nonneg (cs : list api) : 0 <= count_inits cs.
Proof. induction cs as [| [k E | d] cs IH]; cbn [count_inits]; lia. Qed.

Lemma count_finalizes_nonneg (cs : list api) : 0 <= count_finalizes cs.
Proof. induction cs as [| [k E | d] cs IH]; cbn [count_finalizes]; lia. Qed.

(** X9. Started with a counter c that is not negative, a sequence of init
    and finalize calls whose init calls cannot overflow the counter never
    leaves it below 0: it ends between c + inits - finalizes and
    c + inits, where inits and finalizes count the calls of each kind. *)
Theorem counter_never_negative (have : bool) (cs : list api) (g : globals) :
  0 <= _ssh_initialized g ->
  _ssh_initialized g + count_inits cs <= INT_MAX ->
  let c := _ssh_initialized (after (sequence have cs g)) in
  0 <= c /\
  _ssh_initialized g + count_inits cs - count_finalizes cs <= c /\
  c <= _ssh_initialized g + count_inits cs.
Proof.
  revert g. induction cs as [| [k E | d] cs IH]; intros g H0 Hmax.
  - cbn. lia.
  - cbn [count_inits count_finalizes] in *. pose proof (count_inits_nonneg cs).
    cbv zeta. rewrite sequence_cons. cbn [after fst snd step].
    destruct (Z.eq_dec (_ssh_initialized g) 0) as [Ez | Nz].
    + rewrite _ssh_init_first by exact Ez. cbn [after fst snd].
      specialize (IH (Globals 1 (fst (bring_up E))) ltac:(cbn; lia) ltac:(cbn; lia)).
      cbn [_ssh_initialized] in IH. lia.
    + rewrite _ssh_init_later by lia. cbn [after fst snd].
      specialize (IH (Globals (_ssh_initialized g + 1) (_ssh_init_ret g))
                    ltac:(cbn; lia) ltac:(cbn; lia)).
      cbn [_ssh_initialized] in IH. lia.
  - cbn [count_inits count_finalizes] in *. pose proof (count_inits_nonneg cs).
    cbv zeta. rewrite sequence_cons. cbn [after fst snd step].
    destruct (Z.eq_dec (_ssh_initialized g) 0) as [Ez | Nz].
    + rewrite _ssh_finalize_idle by lia. cbn [after fst snd].
      specialize (IH g H0 Hmax). lia.
    + destruct (Z.eq_dec (_ssh_initialized g) 1) as [E1 | N1].
      * rewrite _ssh_finalize_last by exact E1. cbn [after fst snd].
        specialize (IH (Globals 0 (_ssh_init_ret g)) ltac:(cbn; lia) ltac:(cbn; lia)).
        cbn [_ssh_initialized] in IH. lia.
      * rewrite _ssh_finalize_earlier by lia. cbn [after fst snd].
        specialize (IH (Globals (_ssh_initialized g - 1) (_ssh_init_ret g))
                      ltac:(cbn; lia) ltac:(cbn; lia)).
        cbn [_ssh_initialized] in IH. lia.
Qed.

Lemma counter_never_negative_witness :
  let c := _ssh_initialized
             (after (sequence true
                       [finalize 0; init 0 (Collaborators 0 0 0); finalize 1;
                        finalize 0] globals0)) in
  0 <= c /\ 0 + 1 - 3 <= c /\ c <= 0 + 1.
Proof.
  apply (counter_never_negative true
           [finalize 0; init 0 (Collaborators 0 0 0); finalize 1; finalize 0]
           globals0).
  - simpl. lia.
  - unfold INT_MAX. simpl. lia.
Defined.

(** Finalize calls that leave an init outstanding only count down. *)
Lemma sequence_finalizes_outstanding (have : bool) (cs : list api) (g : globals) :
  Forall is_finalize cs ->
  Z.of_nat (length cs) < _ssh_initialized g <= INT_MAX ->
  let r := sequence have cs g in
  after r = Globals (_ssh_initialized g - Z.of_nat (length cs)) (_ssh_init_ret g) /\
  collaborator_calls (calls r) = [].
Proof.
  revert g. induction cs as [| c cs IH]; intros g Hall Hn.
  - cbn. destruct g as [n c]. cbn. split; [f_equal; lia | reflexivity].
  - inversion Hall as [| c' cs' Hc Hcs]; subst.
    destruct c as [k E | d]; [contradiction |].
    cbn [length] in *. rewrite Nat2Z.inj_succ in *.
    cbv zeta. rewrite sequence_cons. cbn [step].
    rewrite _ssh_finalize_earlier by lia. cbn [after calls fst snd].
    destruct (IH (Globals (_ssh_initialized g - 1) (_ssh_init_ret g)) Hcs
                ltac:(cbn; lia)) as [Hg Ht].
    cbn [_ssh_initialized _ssh_init_ret] in Hg.
    rewrite collaborator_calls_app, collaborator_calls_locked, Ht, Hg.
    split; [f_equal; lia | reflexivity].
Qed.

(** X10. After N init calls (1 <= N <= INT_MAX, counter at 0 before),
    M < N finalize calls leave the counter at N - M and the cached result
    in place, and none of them calls a teardown collaborator, whatever
    bring-up returned. *)
Theorem no_teardown_while_outstanding
    (have : bool) (k : Z) (E : collaborators) (inits fins : list api)
    (g : globals) :
  Forall is_init inits ->
  Forall is_finalize fins ->
  _ssh_initialized g = 0 ->
  Z.of_nat (S (length inits)) <= INT_MAX ->
  (length fins < S (length inits))%nat ->
  let i := sequence have (init k E :: inits) g in
  let f := sequence have fins (after i) in
  _ssh_initialized (after f) =
    Z.of_nat (S (length inits)) - Z.of_nat (length fins) /\
  _ssh_init_ret (after f) = status (_ssh_init have E k g) /\
  collaborator_calls (calls f) = [].
Proof.
  intros Hi Hf H0 Hmax Hlt i f. subst i f.
  rewrite Nat2Z.inj_succ in *.
  rewrite sequence_cons. cbn [step after fst snd].
  rewrite _ssh_init_first by exact H0. cbn [status after fst snd].
  destruct (sequence_inits have inits (Globals 1 (fst (bring_up E))) Hi
              ltac:(cbn; lia) ltac:(cbn; lia)) as (I1 & Ir & _ & _).
  cbn [_ssh_initialized _ssh_init_ret] in I1, Ir.
  destruct (sequence_finalizes_outstanding have fins
              (after (sequence have inits (Globals 1 (fst (bring_up E))))) Hf
              ltac:(lia)) as [Hg Ht].
  rewrite Hg, Ht, I1, Ir. cbn [_ssh_initialized _ssh_init_ret].
  repeat split; lia.
Qed.

Lemma no_teardown_while_outstanding_witness :
  let i := sequence true
             [init 0 (Collaborators 0 0 0); init 0 (Collaborators 0 0 0)]
             globals0 in
  let f := sequence true [finalize 0] (after i) in
  _ssh_initialized (after f) = 1 /\
  _ssh_init_ret (after f) = 0 /\
  collaborator_calls (calls f) = [].
Proof.
  apply (no_teardown_while_outstanding true 0 (Collaborators 0 0 0)
           [init 0 (Collaborators 0 0 0)] [finalize 0] globals0).
  - repeat constructor.
  - repeat constructor.
  - reflexivity.
  - unfold INT_MAX. simpl. lia.
  - simpl. lia.
Defined.

(** X11. Finalize calls made while the counter is at 0 change nothing:
    any number of them leaves both globals as they were, calls no
    collaborator, and each returns 0. *)
Theorem surplus_finalizes_are_noops (have : bool) (cs : list api) (g : globals) :
  Forall is_finalize cs ->
  _ssh_initialized g = 0 ->
  after (sequence have cs g) = g /\
  collaborator_calls (calls (sequence have cs g)) = [] /\
  results have cs g = repeat 0 (length cs).
Proof.
  intros Hall H0. induction cs as [| c cs IH].
  - cbn. repeat split; reflexivity.
  - inversion Hall as [| c' cs' Hc Hcs]; subst.
    destruct c as [k E | d]; [contradiction |].
    rewrite sequence_cons. cbn [step results length repeat].
    rewrite _ssh_finalize_idle by lia. cbn [status after calls fst snd].
    destruct (IH Hcs) as (Hg & Ht & Hr).
    rewrite collaborator_calls_app, collaborator_calls_locked, Hg, Ht, Hr.
    repeat split; reflexivity.
Qed.

Lemma surplus_finalizes_are_noops_witness :
  after (sequence true [finalize 0; finalize 1; finalize 0] (Globals 0 (-1)))
    = Globals 0 (-1) /\
  collaborator_calls
    (calls (sequence true [finalize 0; finalize 1; finalize 0] (Globals 0 (-1))))
    = [] /\
  results true [finalize 0; finalize 1; finalize 0] (Globals 0 (-1)) = [0; 0; 0].
Proof.
  apply (surplus_finalizes_are_noops true [finalize 0; finalize 1; finalize 0]
           (Globals 0 (-1))).
  - repeat constructor.
  - reflexivity.
Defined.

End InitEpochs.

(** ** More on the lock backends: creation, destruction and their
       composition *)

Section PthreadLifetime.

Import Pthread.
Local Open Scope proc_scope.

Ltac steps :=
  cbv beta iota zeta delta
    [ssh_pthread_mutex_init ssh_pthread_mutex_destroy ssh_pthread_mutex_lock
     ssh_pthread_mutex_unlock ssh_static_mutex_init ssh_mutex_init
     ssh_mutex_lock ssh_mutex_unlock ssh_mutex_destroy
     Pthread.bind Pthread.ret Pthread.when exit load store
     call_pthread_mutexattr_init call_pthread_mutexattr_settype call_malloc
     call_free call_pthread_mutex_init call_pthread_mutex_destroy
     call_pthread_mutex_lock call_pthread_mutex_unlock
     cells blocks mutexes negb];
  cbn [app];
  rewrite ?lookup_insert_eq; cbn [default from_option id].

Lemma ssh_pthread_mutex_destroy_eq (L : libc) (mutex : Z) (m : mem) :
  ssh_pthread_mutex_destroy L mutex m =
  let p := pointee mutex m in
  let rc := mutex_destroy_status L p in
  Returns rc
    (Mem (<[mutex := NULL]> (cells m)) (blocks m ∖ {[p]})
         (if rc =? 0 then mutexes m ∖ {[p]} else mutexes m))
    [pthread_mutex_destroy p; free p].
Proof.
  destruct m as [c b x]. unfold pointee. steps.
  destruct (mutex_destroy_status L (default NULL (c !! mutex)) =? 0);
    steps; reflexivity.
Qed.

Lemma ssh_pthread_mutex_lock_eq (L : libc) (mutex : Z) (m : mem) :
  ssh_pthread_mutex_lock L mutex m =
  Returns (mutex_lock_status L (pointee mutex m)) m
    [pthread_mutex_lock (pointee mutex m)].
Proof. destruct m as [c b x]. reflexivity. Qed.

Lemma ssh_pthread_mutex_unlock_eq (L : libc) (mutex : Z) (m : mem) :
  ssh_pthread_mutex_unlock L mutex m =
  Returns (mutex_unlock_status L (pointee mutex m)) m
    [pthread_mutex_unlock (pointee mutex m)].
Proof. destruct m as [c b x]. reflexivity. Qed.

(** The backend's creation when every library call succeeds. *)
Lemma ssh_pthread_mutex_init_ok (L : libc) (mutex : Z) (m : mem) :
  mutexattr_init_status L = 0 ->
  mutexattr_settype_status L = 0 ->
  malloc_result L <> NULL ->
  mutex_init_status L (malloc_result L) = 0 ->
  ssh_pthread_mutex_init L mutex m =
  Returns 0
    (Mem (<[mutex := malloc_result L]> (cells m))
         ({[malloc_result L]} ∪ blocks m) ({[malloc_result L]} ∪ mutexes m))
    [pthread_mutexattr_init; pthread_mutexattr_settype;
     malloc (malloc_result L); pthread_mutex_init (malloc_result L)].
Proof.
  intros Ha Hs Hp Hi. rewrite ssh_pthread_mutex_init_eq. cbv zeta.
  rewrite Ha, Hs, Hi.
  change (negb (0 =? 0)) with false. change (0 =? 0) with true. cbv iota.
  now destruct (Z.eqb_spec (malloc_result L) NULL).
Qed.

(** X12. When the two attribute calls, [malloc] and the construction all
    succeed, [ssh_mutex_init] on a non-null handle returns with the handle
    pointing to the block [malloc] returned, that block live and holding
    the constructed mutex, and every other cell as it was. *)
Theorem ssh_mutex_init_creates_the_lock (L : libc) (mutex : Z) (m : mem) :
  mutex <> NULL ->
  mutexattr_init_status L = 0 ->
  mutexattr_settype_status L = 0 ->
  malloc_result L <> NULL ->
  mutex_init_status L (malloc_result L) = 0 ->
  let p := malloc_result L in
  exists m',
    ssh_mutex_init L mutex m =
      Returns tt m'
        [pthread_mutexattr_init; pthread_mutexattr_settype; malloc p;
         pthread_mutex_init p] /\
    pointee mutex m' = p /\
    (forall a, a <> mutex -> cells m' !! a = cells m !! a) /\
    blocks m' = {[p]} ∪ blocks m /\
    mutexes m' = {[p]} ∪ mutexes m.
Proof.
  intros Hm Ha Hs Hp Hi p. subst p.
  rewrite ssh_mutex_init_eq, ssh_pthread_mutex_init_ok by assumption.
  destruct (Z.eqb_spec mutex NULL) as [| _]; [contradiction |].
  change (0 =? 0) with true. cbv iota.
  eexists. split; [reflexivity |]. unfold pointee. cbn [cells blocks mutexes].
  rewrite lookup_insert_eq. split_and!; try reflexivity.
  intros a Hne. now rewrite lookup_insert_ne.
Qed.

Lemma ssh_mutex_init_creates_the_lock_witness :
  exists m',
    ssh_mutex_init (libc_ok 200) 100 mem0 =
      Returns tt m'
        [pthread_mutexattr_init; pthread_mutexattr_settype; malloc 200;
         pthread_mutex_init 200] /\
    pointee 100 m' = 200 /\
    (forall a, a <> 100 -> cells m' !! a = cells mem0 !! a) /\
    blocks m' = {[200]} ∪ blocks mem0 /\
    mutexes m' = {[200]} ∪ mutexes mem0.
Proof.
  apply (ssh_mutex_init_creates_the_lock (libc_ok 200) 100 mem0);
    first [reflexivity | discriminate].
Defined.

(** X13. [ssh_mutex_init] on a non-null handle returns only when the two
    attribute calls, [malloc] and the construction all succeeded. When
    [malloc] returns NULL it ends the process with status ENOMEM, no mutex
    having been constructed. *)
Theorem ssh_mutex_init_returns_only_on_success (L : libc) (mutex : Z) (m : mem) :
  mutex <> NULL ->
  (returned (ssh_mutex_init L mutex m) = Some tt <->
   mutexattr_init_status L = 0 /\ mutexattr_settype_status L = 0 /\
   malloc_result L <> NULL /\ mutex_init_status L (malloc_result L) = 0) /\
  (mutexattr_init_status L = 0 -> mutexattr_settype_status L = 0 ->
   malloc_result L = NULL ->
   ssh_mutex_init L mutex m =
     Exits ENOMEM
       [pthread_mutexattr_init; pthread_mutexattr_settype; malloc NULL]).
Proof.
  intros Hm. split; [split |].
  - rewrite ssh_mutex_init_eq, ssh_pthread_mutex_init_eq. cbv zeta.
    destruct (Z.eqb_spec mutex NULL) as [| _]; [contradiction |].
    destruct (Z.eqb_spec (mutexattr_init_status L) 0) as [Ha | Ha];
      cbn [negb returned]; [| discriminate].
    destruct (Z.eqb_spec (mutexattr_settype_status L) 0) as [Hs | Hs];
      cbn [negb returned]; [| discriminate].
    destruct (Z.eqb_spec (malloc_result L) NULL) as [Hp | Hp].
    { change (ENOMEM =? 0) with false. cbn [returned]. discriminate. }
    destruct (mutex_init_status L (malloc_result L) =? 0) eqn:Hi;
      rewrite ?Hi; cbn [returned]; [| discriminate].
    apply Z.eqb_eq in Hi. intros _. now repeat split.
  - intros (Ha & Hs & Hp & Hi).
    rewrite ssh_mutex_init_eq, ssh_pthread_mutex_init_ok by assumption.
    now destruct (Z.eqb_spec mutex NULL).
  - intros Ha Hs Hp.
    rewrite ssh_mutex_init_eq, ssh_pthread_mutex_init_eq. cbv zeta.
    rewrite Ha, Hs, Hp.
    now destruct (Z.eqb_spec mutex NULL).
Qed.

Lemma ssh_mutex_init_returns_only_on_success_witness :
  returned (ssh_mutex_init (libc_ok 200) 100 mem0) = Some tt /\
  ssh_mutex_init libc_no_memory 100 mem0 =
    Exits ENOMEM [pthread_mutexattr_init; pthread_mutexattr_settype; malloc NULL].
Proof.
  split.
  - apply (ssh_mutex_init_returns_only_on_success (libc_ok 200) 100 mem0);
      [discriminate |]. repeat split; try reflexivity. discriminate.
  - apply (ssh_mutex_init_returns_only_on_success libc_no_memory 100 mem0);
      first [discriminate | reflexivity].
Defined.

End PthreadLifetime.

Section PthreadUse.

Import Pthread.
Local Open Scope proc_scope.

Lemma bind_returns {A B} (c : P A) (k : A -> P B) (m m1 : mem) (a : A)
    (t1 : list extern) :
  c m = Returns a m1 t1 ->
  Pthread.bind c k m =
  match k a m1 with
  | Returns b m2 t2 => Returns b m2 (t1 ++ t2)
  | Exits s t2 => Exits s (t1 ++ t2)
  end.
Proof. intros H. unfold Pthread.bind. now rewrite H. Qed.

Lemma union_difference_fresh (p : Z) (X : gset Z) :
  p ∉ X -> ({[p]} ∪ X) ∖ {[p]} = X.
Proof.
  intros Hp. apply set_eq. intros x.
  rewrite elem_of_difference, elem_of_union, elem_of_singleton.
  split.
  - intros [[-> | Hx] Hne]; [contradiction | exact Hx].
  - intros Hx. split; [now right |]. intros ->. contradiction.
Qed.

(** X14. On a non-null handle, the backend's [ssh_pthread_mutex_destroy]
    releases whatever [pthread_mutex_destroy] answers: it returns the
    status of [pthread_mutex_destroy] on the pointee, and in every case,
    also when that status is a failure, it has freed the pointee and set
    the handle to NULL, touching no other cell. *)
Theorem ssh_pthread_mutex_destroy_always_frees (L : libc) (mutex : Z) (m : mem) :
  mutex <> NULL ->
  let p := pointee mutex m in
  exists m',
    ssh_pthread_mutex_destroy L mutex m =
      Returns (mutex_destroy_status L p) m' [pthread_mutex_destroy p; free p] /\
    pointee mutex m' = NULL /\
    (p ∉ blocks m') /\
    (forall a, a <> mutex -> cells m' !! a = cells m !! a).
Proof.
  intros _ p. subst p. rewrite ssh_pthread_mutex_destroy_eq. cbv zeta.
  eexists. split; [reflexivity |]. unfold pointee at 1. cbn [cells blocks].
  rewrite lookup_insert_eq. split_and!; try reflexivity.
  - rewrite elem_of_difference, elem_of_singleton. tauto.
  - intros a Hne. now rewrite lookup_insert_ne.
Qed.

Lemma ssh_pthread_mutex_destroy_always_frees_witness :
  let L := Libc 0 0 200 (fun _ => 0) (fun _ => 16) (fun _ => 0) (fun _ => 0) 1 in
  let m := Mem {[100 := 200]} {[200]} {[200]} in
  exists m',
    ssh_pthread_mutex_destroy L 100 m =
      Returns 16 m' [pthread_mutex_destroy 200; free 200] /\
    pointee 100 m' = NULL /\
    (200 ∉ blocks m') /\
    (forall a, a <> 100 -> cells m' !! a = cells m !! a).
Proof.
  assert (Hm : 100 <> NULL) by discriminate.
  exact (ssh_pthread_mutex_destroy_always_frees
           (Libc 0 0 200 (fun _ => 0) (fun _ => 16) (fun _ => 0) (fun _ => 0) 1)
           100 (Mem {[100 := 200]} {[200]} {[200]}) Hm).
Defined.

(** X15. Creation followed by destruction gives back what creation took:
    when every library call succeeds and [malloc] returns a block that was
    neither live nor holding a mutex, [ssh_mutex_init] then
    [ssh_mutex_destroy] on a non-null handle return, leave the live blocks
    and the constructed mutexes as they were before, and leave the handle
    NULL. *)
Theorem ssh_mutex_init_destroy_round_trip (L : libc) (mutex : Z) (m : mem) :
  mutex <> NULL ->
  mutexattr_init_status L = 0 ->
  mutexattr_settype_status L = 0 ->
  malloc_result L <> NULL ->
  mutex_init_status L (malloc_result L) = 0 ->
  mutex_destroy_status L (malloc_result L) = 0 ->
  malloc_result L ∉ blocks m ->
  malloc_result L ∉ mutexes m ->
  let p := malloc_result L in
  (ssh_mutex_init L mutex ;; ssh_mutex_destroy L mutex) m =
  Returns tt (Mem (<[mutex := NULL]> (cells m)) (blocks m) (mutexes m))
    [pthread_mutexattr_init; pthread_mutexattr_settype; malloc p;
     pthread_mutex_init p; pthread_mutex_destroy p; free p].
Proof.
  intros Hm Ha Hs Hp Hi Hd Hb Hx p. subst p.
  assert (Hinit : ssh_mutex_init L mutex m =
    Returns tt
      (Mem (<[mutex := malloc_result L]> (cells m))
           ({[malloc_result L]} ∪ blocks m) ({[malloc_result L]} ∪ mutexes m))
      [pthread_mutexattr_init; pthread_mutexattr_settype;
       malloc (malloc_result L); pthread_mutex_init (malloc_result L)]).
  { rewrite ssh_mutex_init_eq, ssh_pthread_mutex_init_ok by assumption.
    now destruct (Z.eqb_spec mutex NULL). }
  rewrite (bind_returns _ _ _ _ _ _ Hinit), ssh_mutex_destroy_eq. cbv zeta.
  unfold pointee. cbn [cells blocks mutexes]. rewrite lookup_insert_eq.
  cbn [default from_option id]. rewrite Hd.
  destruct (Z.eqb_spec mutex NULL) as [| _]; [contradiction |].
  change (0 =? 0) with true. cbv iota. cbn [app].
  f_equal. f_equal.
  - apply insert_insert_eq.
  - now apply union_difference_fresh.
  - now apply union_difference_fresh.
Qed.

Lemma ssh_mutex_init_destroy_round_trip_witness :
  (ssh_mutex_init (libc_ok 200) 100 ;; ssh_mutex_destroy (libc_ok 200) 100) mem0 =
  Returns tt (Mem (<[100 := NULL]> (cells mem0)) (blocks mem0) (mutexes mem0))
    [pthread_mutexattr_init; pthread_mutexattr_settype; malloc 200;
     pthread_mutex_init 200; pthread_mutex_destroy 200; free 200].
Proof.
  apply (ssh_mutex_init_destroy_round_trip (libc_ok 200) 100 mem0);
    first [reflexivity | discriminate | apply not_elem_of_empty].
Defined.

(** X16. On a non-null handle, a nonzero status of the backend operation
    ends the process with that status in [ssh_mutex_lock],
    [ssh_mutex_unlock] and [ssh_mutex_destroy] (destroy has freed the
    storage by then); each of the three returns only when that status
    was 0. *)
Theorem lock_operation_failures_are_fatal
    (L : libc) (param mutex : Z) (m : mem) :
  mutex <> NULL ->
  let p := pointee mutex m in
  (mutex_lock_status L mutex <> 0 ->
     ssh_mutex_lock L param mutex m =
       Exits (mutex_lock_status L mutex) [pthread_mutex_lock mutex]) /\
  (mutex_unlock_status L mutex <> 0 ->
     ssh_mutex_unlock L param mutex m =
       Exits (mutex_unlock_status L mutex) [pthread_mutex_unlock mutex]) /\
  (mutex_destroy_status L p <> 0 ->
     ssh_mutex_destroy L mutex m =
       Exits (mutex_destroy_status L p) [pthread_mutex_destroy p; free p]) /\
  (returned (ssh_mutex_lock L param mutex m) = Some tt ->
     mutex_lock_status L mutex = 0) /\
  (returned (ssh_mutex_unlock L param mutex m) = Some tt ->
     mutex_unlock_status L mutex = 0) /\
  (returned (ssh_mutex_destroy L mutex m) = Some tt ->
     mutex_destroy_status L p = 0).
Proof.
  intros Hm p. subst p.
  rewrite ssh_mutex_lock_eq, ssh_mutex_unlock_eq, ssh_mutex_destroy_eq. cbv zeta.
  destruct (Z.eqb_spec mutex NULL) as [| _]; [contradiction |].
  destruct (Z.eqb_spec (mutex_lock_status L mutex) 0) as [Hl | Hl];
    destruct (Z.eqb_spec (mutex_unlock_status L mutex) 0) as [Hu | Hu];
    destruct (Z.eqb_spec (mutex_destroy_status L (pointee mutex m)) 0) as [Hd | Hd];
    cbn [returned]; split_and!; intros H;
      first [reflexivity | assumption | contradiction | discriminate H].
Qed.

Lemma lock_operation_failures_are_fatal_witness :
  ssh_mutex_lock (Libc 0 0 200 (fun _ => 0) (fun _ => 16) (fun _ => 35)
                    (fun _ => 1) 1) 4096 100 mem0
    = Exits 35 [pthread_mutex_lock 100] /\
  ssh_mutex_unlock (Libc 0 0 200 (fun _ => 0) (fun _ => 16) (fun _ => 35)
                      (fun _ => 1) 1) 4096 100 mem0
    = Exits 1 [pthread_mutex_unlock 100] /\
  ssh_mutex_destroy (Libc 0 0 200 (fun _ => 0) (fun _ => 16) (fun _ => 35)
                       (fun _ => 1) 1) 100 mem0
    = Exits 16 [pthread_mutex_destroy NULL; free NULL].
Proof.
  destruct (lock_operation_failures_are_fatal
              (Libc 0 0 200 (fun _ => 0) (fun _ => 16) (fun _ => 35)
                 (fun _ => 1) 1) 4096 100 mem0 ltac:(discriminate))
    as (H1 & H2 & H3 & _).
  split; [apply H1; discriminate | split; [apply H2; discriminate |]].
  apply H3. discriminate.
Defined.

End PthreadUse.

Section Backends.

Import Pthread.
Local Open Scope proc_scope.

(** X17. [ssh_static_mutex_init] never allocates or frees, whatever
    happens. With a null argument it ends the process with EINVAL before
    any call; when the three library calls succeed it returns with the
    mutex constructed at the given address itself and the cells and live
    blocks untouched. *)
Theorem ssh_static_mutex_init_in_place (L : libc) (mutex : Z) (m : mem) :
  let o := ssh_static_mutex_init L mutex m in
  List.filter is_heap_call (calls o) = [] /\
  (mutex = NULL -> o = Exits EINVAL []) /\
  (mutex <> NULL ->
   mutexattr_init_status L = 0 ->
   mutexattr_settype_status L = 0 ->
   mutex_init_status L mutex = 0 ->
   o = Returns tt (Mem (cells m) (blocks m) ({[mutex]} ∪ mutexes m))
         [pthread_mutexattr_init; pthread_mutexattr_settype;
          pthread_mutex_init mutex]).
Proof.
  intros o. subst o. rewrite ssh_static_mutex_init_eq. cbv zeta.
  destruct (Z.eqb_spec mutex NULL) as [Hm | Hm];
    destruct (Z.eqb_spec (mutexattr_init_status L) 0) as [Ha | Ha];
    destruct (Z.eqb_spec (mutexattr_settype_status L) 0) as [Hs | Hs];
    destruct (Z.eqb_spec (mutex_init_status L mutex) 0) as [Hi | Hi];
    cbn [negb calls]; split_and!; intros;
      first [reflexivity | contradiction].
Qed.

Lemma ssh_static_mutex_init_in_place_witness :
  ssh_static_mutex_init (libc_ok 200) NULL mem0 = Exits EINVAL [] /\
  ssh_static_mutex_init (libc_ok 200) 64 mem0 =
    Returns tt (Mem (cells mem0) (blocks mem0) ({[64]} ∪ mutexes mem0))
      [pthread_mutexattr_init; pthread_mutexattr_settype;
       pthread_mutex_init 64].
Proof.
  split.
  - apply (ssh_static_mutex_init_in_place (libc_ok 200) NULL mem0). reflexivity.
  - apply (ssh_static_mutex_init_in_place (libc_ok 200) 64 mem0);
      first [discriminate | reflexivity].
Defined.

(** X18. Used through the descriptor [ssh_threads_pthread], creation,
    lock, unlock and destruction on one handle all reach the same storage:
    when creation succeeds, the four operations in a row apply
    [pthread_mutex_init], [pthread_mutex_lock], [pthread_mutex_unlock] and
    [pthread_mutex_destroy] to the block [malloc] returned, then free it
    and leave the handle NULL. *)
Theorem backend_operations_share_storage (L : libc) (h : Z) (m : mem) :
  h <> NULL ->
  mutexattr_init_status L = 0 ->
  mutexattr_settype_status L = 0 ->
  malloc_result L <> NULL ->
  mutex_init_status L (malloc_result L) = 0 ->
  let B := ssh_threads_pthread L in
  let p := malloc_result L in
  let o := (mutex_init B h ;; mutex_lock B h ;; mutex_unlock B h ;;
            mutex_destroy B h) m in
  calls o =
    [pthread_mutexattr_init; pthread_mutexattr_settype; malloc p;
     pthread_mutex_init p; pthread_mutex_lock p; pthread_mutex_unlock p;
     pthread_mutex_destroy p; free p] /\
  returned o = Some (mutex_destroy_status L p) /\
  exists m', memory o = Some m' /\ pointee h m' = NULL /\ (p ∉ blocks m').
Proof.
  intros Hh Ha Hs Hp Hi B p o. subst B p o.
  cbn [mutex_init mutex_lock mutex_unlock mutex_destroy ssh_threads_pthread].
  rewrite (bind_returns _ _ _ _ _ _
             (ssh_pthread_mutex_init_ok L h m Ha Hs Hp Hi)).
  rewrite (bind_returns _ _ _ _ _ _ (ssh_pthread_mutex_lock_eq L h _)).
  rewrite (bind_returns _ _ _ _ _ _ (ssh_pthread_mutex_unlock_eq L h _)).
  rewrite ssh_pthread_mutex_destroy_eq. cbv zeta.
  unfold pointee. cbn [cells blocks mutexes]. rewrite !lookup_insert_eq.
  cbn [default from_option id app calls returned memory].
  split; [reflexivity | split; [reflexivity |]].
  eexists. split; [reflexivity |]. cbn [cells blocks].
  rewrite lookup_insert_eq. split; [reflexivity |].
  rewrite elem_of_difference, elem_of_singleton. tauto.
Qed.

Lemma backend_operations_share_storage_witness :
  let B := ssh_threads_pthread (libc_ok 200) in
  calls ((mutex_init B 100 ;; mutex_lock B 100 ;; mutex_unlock B 100 ;;
          mutex_destroy B 100) mem0) =
    [pthread_mutexattr_init; pthread_mutexattr_settype; malloc 200;
     pthread_mutex_init 200; pthread_mutex_lock 200; pthread_mutex_unlock 200;
     pthread_mutex_destroy 200; free 200].
Proof.
  apply (backend_operations_share_storage (libc_ok 200) 100 mem0);
    first [discriminate | reflexivity].
Defined.

(** X19. Used through the descriptor [ssh_threads_noop], the same four
    operations in a row return 0 having made no library call and changed
    nothing: creation leaves the handle as it was. The thread id is 1, and
    the default descriptor of noop.c is this one. *)
Theorem noop_backend_changes_nothing (h : Z) (m : mem) :
  let B := Noop.ssh_threads_get_default in
  (mutex_init B h ;; mutex_lock B h ;; mutex_unlock B h ;; mutex_destroy B h) m
    = Returns 0 m [] /\
  mutex_init B h m = Returns 0 m [] /\
  thread_id B m = Returns 1 m [] /\
  B = Noop.ssh_threads_get_noop.
Proof. repeat split; reflexivity. Qed.

End Backends.

(** ** The floor of the counter *)

Section CounterFloor.

Import Init.
Local Open Scope prog_scope.

Lemma count_inits_app (cs1 cs2 : list api) :
  count_inits (cs1 ++ cs2) = count_inits cs1 + count_inits cs2.
Proof.
  induction cs1 as [| [k E | d] cs1 IH]; cbn [app count_inits]; lia.
Qed.

(** One call moves the counter by at most one, and not below 0, while the
    increment cannot overflow. *)
Lemma step_counter (have : bool) (c : api) (g : globals) :
  0 <= _ssh_initialized g ->
  _ssh_initialized g + count_inits [c] <= INT_MAX ->
  0 <= _ssh_initialized (after (step have c g))
    <= _ssh_initialized g + count_inits [c].
Proof.
  intros H0 Hmax. destruct c as [k E | d]; cbn [step count_inits] in *.
  - destruct (Z.eq_dec (_ssh_initialized g) 0) as [Ez | Nz].
    + rewrite _ssh_init_first by exact Ez. cbn. lia.
    + rewrite _ssh_init_later by lia. cbn. lia.
  - destruct (Z.eq_dec (_ssh_initialized g) 0) as [Ez | Nz];
      [rewrite _ssh_finalize_idle by lia; cbn; lia |].
    destruct (Z.eq_dec (_ssh_initialized g) 1) as [E1 | N1];
      [rewrite _ssh_finalize_last by exact E1; cbn; lia |].
    rewrite _ssh_finalize_earlier by lia. cbn. lia.
Qed.

Lemma sequence_counter (have : bool) (cs : list api) (g : globals) :
  0 <= _ssh_initialized g ->
  _ssh_initialized g + count_inits cs <= INT_MAX ->
  0 <= _ssh_initialized (after (sequence have cs g))
    <= _ssh_initialized g + count_inits cs.
Proof.
  revert g. induction cs as [| c cs IH]; intros g H0 Hmax.
  - cbn. lia.
  - change (c :: cs) with ([c] ++ cs) in Hmax |- *.
    rewrite count_inits_app in *. pose proof (count_inits_nonneg cs).
    cbn [app]. rewrite sequence_cons. cbn [after fst snd].
    pose proof (step_counter have c g H0 ltac:(lia)) as Hstep.
    specialize (IH (after (step have c g)) ltac:(lia) ltac:(lia)). lia.
Qed.

(** C6, as amended. As long as the increment of init cannot overflow, the
    counter never goes below 0: started with a counter c that is not
    negative, at no point of a sequence of init and finalize calls with
    c plus the number of its init calls at most INT_MAX is the counter
    negative. Finalize returns 0 in every state, and in a state whose
    counter is 0 it changes neither the counter nor the cached result and
    calls no collaborator. *)
Theorem counter_floor
    (have : bool) (done rest : list api) (destructor : Z) (g : globals) :
  (0 <= _ssh_initialized g ->
   _ssh_initialized g + count_inits (done ++ rest) <= INT_MAX ->
   0 <= _ssh_initialized (after (sequence have done g))) /\
  status (_ssh_finalize have destructor g) = 0 /\
  (_ssh_initialized g = 0 ->
   after (_ssh_finalize have destructor g) = g /\
   calls (_ssh_finalize have destructor g) = locked have destructor [] /\
   collaborator_calls (calls (_ssh_finalize have destructor g)) = []).
Proof.
  split; [| split].
  - intros H0 Hmax. rewrite count_inits_app in Hmax.
    pose proof (count_inits_nonneg rest).
    apply (sequence_counter have done g H0). lia.
  - apply _ssh_finalize_status.
  - intros Ez. rewrite _ssh_finalize_idle by lia.
    cbn [after calls fst snd]. rewrite collaborator_calls_locked.
    repeat split; reflexivity.
Qed.

Lemma counter_floor_witness :
  0 <= _ssh_initialized
         (after (sequence true
                   [finalize 0; init 0 (Collaborators 0 0 0); finalize 1;
                    finalize 0] globals0)) /\
  status (_ssh_finalize true 0 globals0) = 0 /\
  after (_ssh_finalize true 0 globals0) = globals0 /\
  calls (_ssh_finalize true 0 globals0) = [mutex_lock; mutex_unlock] /\
  collaborator_calls (calls (_ssh_finalize true 0 globals0)) = [].
Proof.
  destruct (counter_floor true
              [finalize 0; init 0 (Collaborators 0 0 0); finalize 1; finalize 0]
              [init 1 (Collaborators 0 0 0)] 0 globals0) as (H1 & H2 & H3).
  split; [apply H1; [simpl; lia | unfold INT_MAX; simpl; lia] |].
  split; [exact H2 |].
  apply H3. reflexivity.
Defined.

(** C6 as stated fails at the top of the range of [int]: an init call that
    finds the counter at INT_MAX, which is not negative, leaves it at
    INT_MIN, below 0. *)
Lemma counter_negative_after_overflow :
  let g := Globals INT_MAX 0 in
  let r := ssh_init true (Collaborators 0 0 0) g in
  0 <= _ssh_initialized g /\
  _ssh_initialized (after r) = INT_MIN /\
  _ssh_initialized (after r) < 0.
Proof. repeat split; vm_compute; first [reflexivity | discriminate]. Qed.

End CounterFloor.
